(** * A shallow embedding of the reverse proxy of [src/index.ts]

    The proxy fronts three legacy sites.  An inbound path [/{prefix}/rest]
    is translated into a request against the origin, the answer is relayed,
    and HTML answers have their [href]/[src] attributes rewritten by a chain
    of regular-expression replacements.

    The embedding keeps the structure of the source: the registry
    [DOMAIN_CONFIGS], the class [HtmlModifier] with its method [modifyHtml],
    and the class [ProxyHandler] with [normalizeReferer],
    [getForwardableHeaders], [handleNonHtmlResponse], [handleHtmlResponse]
    and [handle].  The collaborators that are not part of the repository
    (the WHATWG URL parser, [fetch], [iconv.decode]) are variables of the
    section [ProxyHandler]. *)

From Stdlib Require Import String Ascii NArith ZArith Bool Lia DecimalString List.
Import ListNotations.

Set Implicit Arguments.

(** ** JavaScript strings

    A JavaScript string is a sequence of UTF-16 code units. *)

Definition char := N.
Definition jsstring := list char.

Definition lit (s : string) : jsstring :=
  map N_of_ascii (list_ascii_of_string s).

Definition DQUOTE : char := 34%N.
Definition SQUOTE : char := 39%N.
Definition SLASH : char := 47%N.
Definition NEWLINE : char := 10%N.

Definition char_eqb : char -> char -> bool := N.eqb.

Fixpoint str_eqb (a b : jsstring) : bool :=
  match a, b with
  | [], [] => true
  | x :: a', y :: b' => char_eqb x y && str_eqb a' b'
  | _, _ => false
  end.

Fixpoint mem_char (c : char) (l : list char) : bool :=
  match l with
  | [] => false
  | x :: l' => char_eqb c x || mem_char c l'
  end.

Fixpoint mem_str (s : jsstring) (l : list jsstring) : bool :=
  match l with
  | [] => false
  | x :: l' => str_eqb s x || mem_str s l'
  end.

(** [s.startsWith(p)] *)
Fixpoint startsWith (p s : jsstring) : bool :=
  match p, s with
  | [], _ => true
  | x :: p', y :: s' => char_eqb x y && startsWith p' s'
  | _ :: _, [] => false
  end.

(** [s.includes(p)] *)
Fixpoint includes (p s : jsstring) : bool :=
  startsWith p s ||
  match s with
  | [] => false
  | _ :: s' => includes p s'
  end.

(** [s.replace(p, r)] with a string pattern: the first occurrence only. *)
Fixpoint replace_str (p r s : jsstring) : jsstring :=
  if startsWith p s then r ++ skipn (List.length p) s
  else match s with
       | [] => []
       | c :: s' => c :: replace_str p r s'
       end.

(** [s.split('/')] *)
Fixpoint split (sep : char) (s : jsstring) : list jsstring :=
  match s with
  | [] => [[]]
  | c :: s' =>
      if char_eqb c sep then [] :: split sep s'
      else match split sep s' with
           | h :: t => (c :: h) :: t
           | [] => [[c]]
           end
  end.

(** [Boolean(s)] for a string: the empty string is the only falsy one. *)
Definition truthy (s : jsstring) : bool :=
  match s with [] => false | _ :: _ => true end.

(** [parts.join('/')] *)
Fixpoint join (sep : jsstring) (l : list jsstring) : jsstring :=
  match l with
  | [] => []
  | [x] => x
  | x :: l' => x ++ sep ++ join sep l'
  end.

(** [s.toLowerCase()].  It is applied to header names only, which are
    HTTP tokens; the case mapping is that of the Basic Latin and Latin-1
    ranges, and a code unit beyond them is left as it is. *)
Definition lower_char (c : char) : char :=
  if ((65 <=? c) && (c <=? 90))%N then (c + 32)%N
  else if ((192 <=? c) && (c <=? 222) && negb (c =? 215))%N then (c + 32)%N
  else c.

Definition toLowerCase (s : jsstring) : jsstring := map lower_char s.

(** A value read from a property that may be [undefined], converted to a
    string: interpolated in a template literal, or used as a property
    key. *)
Definition interp (v : option jsstring) : jsstring :=
  match v with
  | Some s => s
  | None => lit "undefined"
  end.

(** ** Thrown errors

    [status] and [message] are the two properties the top-level handler
    reads from a caught error; [None] is a property that is absent. *)

Record JSError := mkError { err_status : option Z; err_message : option jsstring }.

Inductive Result (A : Type) : Type :=
| Ok (a : A)
| Throw (e : JSError).

Arguments Ok {A} a.
Arguments Throw {A} e.

Definition bind {A B} (m : Result A) (f : A -> Result B) : Result B :=
  match m with
  | Ok a => f a
  | Throw e => Throw e
  end.

Notation "x <- m ;; k" := (bind m (fun x => k))
  (at level 61, m at next level, right associativity).

(** A [TypeError] raised by the engine: a message, no status. *)
Definition TypeError (msg : string) : JSError :=
  mkError None (Some (lit msg)).

(** [String(n)] for an integer. *)
Definition Number_toString (n : Z) : jsstring :=
  lit (NilEmpty.string_of_int (Z.to_int n)).

(** The [RangeError] of Node's [writeHead] for a status code that is not
    in 100..999: a message, no status. *)
Definition ERR_HTTP_INVALID_STATUS_CODE (code : Z) : JSError :=
  mkError None (Some (lit "Invalid status code: " ++ Number_toString code)).

(** ** Regular expressions

    The fragment of ECMAScript regular expressions the source uses, with
    the backtracking semantics of the language: alternatives are tried in
    order, the star is greedy, a dot matches any code unit but a line
    terminator. *)

Inductive cset :=
| CChar (c : char)             (* a literal character *)
| CDot                         (* .       *)
| COneOf (l : list char)       (* [...]   *)
| CNoneOf (l : list char).     (* [^...]  *)

Inductive regex :=
| RSet (cs : cset)
| REps
| RSeq (r1 r2 : regex)
| RAlt (r1 r2 : regex)         (* r1|r2   *)
| RStar (cs : cset)            (* cs*     *)
| RGroup (i : nat) (r : regex) (* the i-th capturing group *)
| RNotAhead (r : regex)        (* (?!r)   *)
| RBol.                        (* ^       *)

Definition line_terminator (c : char) : bool :=
  mem_char c [10; 13; 8232; 8233]%N.

Definition cset_mem (cs : cset) (c : char) : bool :=
  match cs with
  | CChar x => char_eqb c x
  | CDot => negb (line_terminator c)
  | COneOf l => mem_char c l
  | CNoneOf l => negb (mem_char c l)
  end.

(** Captures: group number to captured text. *)
Definition captures := list (nat * jsstring).

Fixpoint capture (i : nat) (caps : captures) : option jsstring :=
  match caps with
  | [] => None
  | (j, s) :: caps' => if Nat.eqb i j then Some s else capture i caps'
  end.

(** The matcher, in continuation-passing style.  [pos] is the index of the
    next code unit in the whole subject, [s] what is left of the subject
    from there. *)
Fixpoint rmatch (R : Type) (r : regex) (pos : nat) (s : jsstring)
    (caps : captures) (k : nat -> jsstring -> captures -> option R)
    {struct r} : option R :=
  match r with
  | RSet cs =>
      match s with
      | c :: s' => if cset_mem cs c then k (S pos) s' caps else None
      | [] => None
      end
  | REps => k pos s caps
  | RSeq r1 r2 =>
      rmatch r1 pos s caps (fun pos1 s1 caps1 => rmatch r2 pos1 s1 caps1 k)
  | RAlt r1 r2 =>
      match rmatch r1 pos s caps k with
      | Some x => Some x
      | None => rmatch r2 pos s caps k
      end
  | RStar cs =>
      (fix star (pos : nat) (s : jsstring) {struct s} : option R :=
         match s with
         | c :: s' =>
             if cset_mem cs c then
               match star (S pos) s' with
               | Some x => Some x
               | None => k pos s caps
               end
             else k pos s caps
         | [] => k pos s caps
         end) pos s
  | RGroup i r1 =>
      rmatch r1 pos s caps
        (fun pos1 s1 caps1 => k pos1 s1 ((i, firstn (pos1 - pos) s) :: caps1))
  | RNotAhead r1 =>
      match rmatch r1 pos s caps (fun _ _ _ => Some tt) with
      | Some _ => None
      | None => k pos s caps
      end
  | RBol => match pos with O => k pos s caps | S _ => None end
  end.

(** One attempt at position [pos]: the length of the match and its
    captures. *)
Definition exec (r : regex) (pos : nat) (s : jsstring) : option (nat * captures) :=
  rmatch r pos s [] (fun pos1 _ caps1 => Some (pos1 - pos, caps1)).

(** [s.replace(r, f)] for a regular expression with the [g] flag and a
    replacement callback [f] that receives the captures.  [skip] counts the
    code units of the last match that are still to be passed over. *)
Fixpoint replace_go (r : regex) (f : captures -> Result jsstring)
    (pos skip : nat) (s : jsstring) {struct s} : Result jsstring :=
  match skip with
  | S n =>
      match s with
      | [] => Ok []
      | _ :: s' => replace_go r f (S pos) n s'
      end
  | O =>
      match exec r pos s with
      | Some (len, caps) =>
          out <- f caps ;;
          match s with
          | [] => Ok out
          | c :: s' =>
              match len with
              | O => t <- replace_go r f (S pos) 0 s' ;; Ok (out ++ c :: t)
              | S n => t <- replace_go r f (S pos) n s' ;; Ok (out ++ t)
              end
          end
      | None =>
          match s with
          | [] => Ok []
          | c :: s' => t <- replace_go r f (S pos) 0 s' ;; Ok (c :: t)
          end
      end
  end.

Definition replace_all (r : regex) (f : captures -> Result jsstring)
    (s : jsstring) : Result jsstring :=
  replace_go r f 0 0 s.

(** [s.replace(r, f)] without the [g] flag: the leftmost match only. *)
Fixpoint replace_first_go (r : regex) (f : captures -> jsstring)
    (pos : nat) (s : jsstring) {struct s} : jsstring :=
  match exec r pos s with
  | Some (len, caps) => f caps ++ skipn len s
  | None =>
      match s with
      | [] => []
      | c :: s' => c :: replace_first_go r f (S pos) s'
      end
  end.

Definition replace_first (r : regex) (f : captures -> jsstring)
    (s : jsstring) : jsstring :=
  replace_first_go r f 0 s.

(** Replacement strings: literal text and [$n] references. *)
Inductive repl_item :=
| RText (s : jsstring)
| RRef (i : nat).

Definition expand_item (caps : captures) (it : repl_item) : jsstring :=
  match it with
  | RText s => s
  | RRef i => match capture i caps with Some s => s | None => [] end
  end.

Definition expand (tpl : list repl_item) (caps : captures) : jsstring :=
  concat (map (expand_item caps) tpl).

(** Pattern sources.  The configured strings are spliced into the pattern
    text as they are; the only metacharacter they contain is the dot. *)
Definition rchar (c : char) : regex :=
  if char_eqb c 46%N then RSet CDot else RSet (CChar c).

Fixpoint rsource (s : jsstring) : regex :=
  match s with
  | [] => REps
  | c :: s' => RSeq (rchar c) (rsource s')
  end.

(** [a|b|c] for the pieces of a [join('|')]. *)
Fixpoint ralts (l : list regex) : regex :=
  match l with
  | [] => REps
  | [r] => r
  | r :: l' => RAlt r (ralts l')
  end.

Fixpoint rseq (l : list regex) : regex :=
  match l with
  | [] => REps
  | [r] => r
  | r :: l' => RSeq r (rseq l')
  end.

Definition rtext (s : string) : regex := rsource (lit s).
Definition ropt (r : regex) : regex := RAlt r REps.

(** ** The site registry *)

Record DomainConfig := mkConfig {
  prefix : jsstring;
  domain : jsstring;
  pathPrefix : jsstring   (* the prefix used in the actual site URLs *)
}.

Definition config_st : DomainConfig :=
  mkConfig (lit "st") (lit "salafitalk.net") (lit "st").
Definition config_sm : DomainConfig :=
  mkConfig (lit "sm") (lit "sahihmuslim.com") (lit "sps/smm").
Definition config_sc : DomainConfig :=
  mkConfig (lit "sc") (lit "salafitalk.com") (lit "").

(** An object literal used as a map: its own properties, in insertion
    order. *)
Definition object (A : Type) := list (jsstring * A).

Definition DOMAIN_CONFIGS : object DomainConfig :=
  [ (lit "st", config_st); (lit "sm", config_sm); (lit "sc", config_sc) ].

(** [Object.values(o)] *)
Definition values {A} (o : object A) : list A := map snd o.

Fixpoint own {A} (o : object A) (k : jsstring) : option A :=
  match o with
  | [] => None
  | (k', v) :: o' => if str_eqb k k' then Some v else own o' k
  end.

(** [o[k] = v] *)
Fixpoint set {A} (o : object A) (k : jsstring) (v : A) : object A :=
  match o with
  | [] => [(k, v)]
  | (k', v') :: o' =>
      if str_eqb k k' then (k', v) :: o' else (k', v') :: set o' k v
  end.

(** The properties every object literal inherits from [Object.prototype].
    Each is a function or an object, hence truthy, and has none of the
    properties [prefix], [domain], [pathPrefix]. *)
Definition Object_prototype : list jsstring :=
  map lit [ "constructor"; "__defineGetter__"; "__defineSetter__";
            "hasOwnProperty"; "__lookupGetter__"; "__lookupSetter__";
            "isPrototypeOf"; "propertyIsEnumerable"; "toString"; "valueOf";
            "__proto__"; "toLocaleString" ]%string.

(** What [o[k]] evaluates to when it is not [undefined]. *)
Inductive member (A : Type) : Type :=
| Own (a : A)
| Inherited.

Arguments Own {A} a.
Arguments Inherited {A}.

(** [o[k]]; [None] is [undefined]. *)
Definition get {A} (o : object A) (k : jsstring) : option (member A) :=
  match own o k with
  | Some v => Some (Own v)
  | None => if mem_str k Object_prototype then Some Inherited else None
  end.

(** [c.prefix], [c.domain], [c.pathPrefix] *)
Definition field (f : DomainConfig -> jsstring) (c : member DomainConfig)
  : option jsstring :=
  match c with
  | Own v => Some (f v)
  | Inherited => None
  end.

Definition ALLOWED_DOMAINS : list jsstring :=
  map domain (values DOMAIN_CONFIGS).

(** Reverse mapping for domain to config *)
Definition DOMAIN_TO_CONFIG : object DomainConfig :=
  fold_left (fun acc config => set acc (domain config) config)
            (values DOMAIN_CONFIGS) [].

(** ** HtmlModifier *)

Definition attr_group : regex :=
  RGroup 1 (RAlt (rtext "href") (rtext "src")).

Definition quote : regex := RSet (COneOf [DQUOTE; SQUOTE]).

(** The patterns below are those of the source; [Q] abbreviates the
    class of the two quote characters.

    [(href|src)=Q https?://(d1|d2|d3)/(?:p1|p2|p3)/], the alternatives being
    the configured domains and the configured path prefixes. *)
Definition absolute_re : regex :=
  rseq [ attr_group; rtext "="; quote; rtext "http"; ropt (rtext "s");
         rtext "://"; RGroup 2 (ralts (map rsource ALLOWED_DOMAINS));
         rtext "/";
         ralts (map rsource (map pathPrefix (values DOMAIN_CONFIGS)));
         rtext "/" ].

(** The callback [(match, attr, domain) => ...], which builds [attr], an
    equals sign, a double quote and [/${DOMAIN_TO_CONFIG[domain].prefix}/]. *)
Definition absolute_fn (caps : captures) : Result jsstring :=
  match get DOMAIN_TO_CONFIG (interp (capture 2 caps)) with
  | None =>
      Throw (TypeError "Cannot read properties of undefined (reading 'prefix')")
  | Some c =>
      Ok (interp (capture 1 caps) ++ lit "=" ++ [DQUOTE] ++ lit "/"
            ++ interp (field prefix c) ++ lit "/")
  end.

(** [(href|src)=Q /(?:${pathPrefix})/] *)
Definition root_prefixed_re (c : member DomainConfig) : regex :=
  rseq [ attr_group; rtext "="; quote; rtext "/";
         rsource (interp (field pathPrefix c)); rtext "/" ].

(** [(href|src)=Q /(?!${prefix})] *)
Definition root_other_re (c : member DomainConfig) : regex :=
  rseq [ attr_group; rtext "="; quote; rtext "/";
         RNotAhead (rsource (interp (field prefix c))) ].

(** [(href|src)=Q (?!http|https|//)(G)Q], where [G] is the greedy run of
    characters that are not quotes. *)
Definition relative_re : regex :=
  rseq [ attr_group; rtext "="; quote;
         RNotAhead (ralts [rtext "http"; rtext "https"; rtext "//"]);
         RGroup 2 (RStar (CNoneOf [DQUOTE; SQUOTE])); quote ].

(** [$1], an equals sign, a double quote and [/${prefix}/] *)
Definition prefix_tpl (c : member DomainConfig) : list repl_item :=
  [ RRef 1;
    RText (lit "=" ++ [DQUOTE] ++ lit "/" ++ interp (field prefix c) ++ lit "/") ].

(** the same followed by [$2] and a closing double quote *)
Definition relative_tpl (c : member DomainConfig) : list repl_item :=
  prefix_tpl c ++ [ RRef 2; RText [DQUOTE] ].

Definition replace_tpl (r : regex) (tpl : list repl_item) (s : jsstring)
  : Result jsstring :=
  replace_all r (fun caps => Ok (expand tpl caps)) s.

Definition META_PROBE : jsstring :=
  lit "<meta charset=" ++ [DQUOTE] ++ lit "utf-8" ++ [DQUOTE].
Definition HEAD_CLOSE : jsstring := lit "</head>".
Definition META_TAG : jsstring :=
  lit "<meta charset=" ++ [DQUOTE] ++ lit "utf-8" ++ [DQUOTE] ++ lit ">"
    ++ [NEWLINE] ++ lit "</head>".

(** The object built by [new HtmlModifier(domain)]: its field [config] is
    [DOMAIN_TO_CONFIG[domain]], which is [undefined] for a string that is
    no key of the table. *)
Record HtmlModifier := mkModifier { config : option (member DomainConfig) }.

Definition new_HtmlModifier (domain : option jsstring) : HtmlModifier :=
  mkModifier (get DOMAIN_TO_CONFIG (interp domain)).

(** [this.config], read for one of its properties. *)
Definition this_config (this : HtmlModifier) : Result (member DomainConfig) :=
  match config this with
  | Some c => Ok c
  | None =>
      Throw (TypeError "Cannot read properties of undefined (reading 'pathPrefix')")
  end.

Definition add_meta (html : jsstring) : jsstring :=
  if negb (includes META_PROBE html)
  then replace_str HEAD_CLOSE META_TAG html
  else html.

Definition modifyHtml (this : HtmlModifier) (html : jsstring) : Result jsstring :=
  let html := add_meta html in
  (* Replace absolute URLs with prefixed proxy URLs *)
  h1 <- replace_all absolute_re absolute_fn html ;;
  (* Replace root-relative URLs starting with the path prefix *)
  c <- this_config this ;;
  h2 <- replace_tpl (root_prefixed_re c) (prefix_tpl c) h1 ;;
  (* Replace other root-relative URLs *)
  h3 <- replace_tpl (root_other_re c) (prefix_tpl c) h2 ;;
  (* Replace relative URLs *)
  replace_tpl relative_re (relative_tpl c) h3.

(** ** ProxyHandler *)

(** A value of [req.headers]: [string | string[]]. *)
Inductive HeaderValue :=
| HString (s : jsstring)
| HArray (l : list jsstring).

Record Request := mkRequest {
  req_url : jsstring;
  req_method : jsstring;
  req_headers : object HeaderValue;
  req_body : list N
}.

(** The options handed to [fetch]; outgoing header values can be
    [undefined]. *)
Record RequestInit := mkInit {
  init_method : jsstring;
  init_headers : object (option jsstring);
  init_body : option (list N);
  init_redirect : jsstring
}.

(** The headers of a response, as [entries()] lists them. *)
Definition Headers := list (jsstring * jsstring).

Fixpoint Headers_get (h : Headers) (name : jsstring) : option jsstring :=
  match h with
  | [] => None
  | (k, v) :: h' =>
      if str_eqb (toLowerCase k) (toLowerCase name) then Some v
      else Headers_get h' name
  end.

Fixpoint Headers_set (h : Headers) (name value : jsstring) : Headers :=
  match h with
  | [] => [(name, value)]
  | (k, v) :: h' =>
      if str_eqb (toLowerCase k) (toLowerCase name) then (k, value) :: h'
      else (k, v) :: Headers_set h' name value
  end.

Record FetchResponse := mkResponse {
  resp_status : Z;
  resp_headers : Headers;
  resp_body : list N
}.

(** What has been written to the body of the Express response. *)
Inductive Sent :=
| Text (s : jsstring)      (* [res.send(s)] *)
| Piped (bytes : list N).  (* [body.pipe(res)] *)

(** The Express response [res]: the status set by [res.status], the
    headers set by [res.setHeader], and the body if one was written. *)
Record ServerResponse := mkRes {
  statusCode : Z;
  res_headers : Headers;
  sent : option Sent
}.

Record URL := mkURL { pathname : jsstring; search : jsstring }.

(** The state one call of [handle] works on: the requests issued through
    [fetch], and the response under construction. *)
Record World := mkWorld {
  fetched : list (jsstring * RequestInit);
  res : ServerResponse
}.

Definition M (A : Type) : Type := World -> Result A * World.

Definition ret {A} (a : A) : M A := fun w => (Ok a, w).
Definition throw {A} (e : JSError) : M A := fun w => (Throw e, w).
Definition lift {A} (r : Result A) : M A := fun w => (r, w).

Definition mbind {A B} (m : M A) (f : A -> M B) : M B :=
  fun w =>
    match m w with
    | (Ok a, w') => f a w'
    | (Throw e, w') => (Throw e, w')
    end.

Notation "x <~ m ;; k" := (mbind m (fun x => k))
  (at level 61, m at next level, right associativity).
Notation "m ;;; k" := (mbind m (fun _ => k))
  (at level 61, right associativity).

(** [try { body } catch (error) { handler(error) }] *)
Definition try_catch (body : M unit) (handler : JSError -> M unit) : M unit :=
  fun w =>
    match body w with
    | (Ok tt, w') => (Ok tt, w')
    | (Throw e, w') => handler e w'
    end.

(** [res.status(code)] stores the code; it is looked at when the head of
    the response is written. *)
Definition res_status (code : Z) : M unit :=
  fun w =>
    (Ok tt, mkWorld (fetched w)
              (mkRes code (res_headers (res w)) (sent (res w)))).

Definition res_setHeader (name value : jsstring) : M unit :=
  fun w =>
    (Ok tt, mkWorld (fetched w)
              (mkRes (statusCode (res w))
                     (Headers_set (res_headers (res w)) name value)
                     (sent (res w)))).

(** The status codes the head of a response can be written with. *)
Definition valid_status (code : Z) : bool :=
  ((100 <=? code) && (code <=? 999))%Z.

(** [res.send(s)] writes the head and the body at once.  The head is
    written with the status set before, and writing it throws when that
    status is not in 100..999: nothing is sent then. *)
Definition res_send (s : jsstring) : M unit :=
  fun w =>
    if valid_status (statusCode (res w)) then
      (Ok tt, mkWorld (fetched w)
                (mkRes (statusCode (res w)) (res_headers (res w))
                       (Some (Text s))))
    else (Throw (ERR_HTTP_INVALID_STATUS_CODE (statusCode (res w))), w).

(** [body.pipe(res)] returns at once: the stream writes after the caller
    has gone on, and what is recorded here is the body it is given. *)
Definition res_pipe (bytes : list N) : M unit :=
  fun w =>
    (Ok tt, mkWorld (fetched w)
              (mkRes (statusCode (res w)) (res_headers (res w))
                     (Some (Piped bytes)))).

Definition FORBIDDEN_HEADERS : list jsstring :=
  map lit [ "host"; "connection"; "content-length"; "transfer-encoding";
            "keep-alive"; "upgrade"; "expect"; "proxy-connection" ]%string.

Definition domainToEncoding : object jsstring :=
  [ (lit "salafitalk.net", lit "iso-8859-1");
    (lit "sahihmuslim.com", lit "windows-1256");
    (lit "salafitalk.com", lit "iso-8859-1") ].

(** [^https?://${domain}/${pathPrefix}/] *)
Definition location_re (c : member DomainConfig) : regex :=
  rseq [ RBol; rtext "http"; ropt (rtext "s"); rtext "://";
         rsource (interp (field domain c)); rtext "/";
         rsource (interp (field pathPrefix c)); rtext "/" ].

(** [`http://${c.domain}/${c.pathPrefix}/`] *)
Definition origin_root (c : member DomainConfig) : jsstring :=
  lit "http://" ++ interp (field domain c) ++ lit "/"
    ++ interp (field pathPrefix c) ++ lit "/".

(** [req.headers[name]] for a header Node delivers as a string. *)
Definition req_header (req : Request) (name : string) : option jsstring :=
  match own (req_headers req) (lit name) with
  | Some (HString s) => Some s
  | Some (HArray l) => Some (join (lit ",") l)
  | None => None
  end.

Section ProxyHandler.

(** [new URL(input, base)] of Node, which throws on an invalid URL. *)
Variable new_URL : jsstring -> jsstring -> Result URL.

(** [await fetch(url, init)] of node-fetch, which throws on a transport
    failure. *)
Variable fetch : jsstring -> RequestInit -> Result FetchResponse.

(** [iconv.decode(buffer, encoding)]; the encoding is [undefined] when
    the table has no entry. *)
Variable iconv_decode : list N -> option jsstring -> Result jsstring.

Variable req : Request.

Definition normalizeReferer (referer : option jsstring)
    (domainConfig : member DomainConfig) : Result jsstring :=
  match referer with
  | None | Some [] => Ok (origin_root domainConfig)
  | Some ((_ :: _) as referer) =>
      (* Extract the path from the referer if it's from our proxy *)
      refererUrl <- new_URL referer
                      (lit "http://" ++ interp (req_header req "host")) ;;
      let pathParts := filter truthy (split SLASH (pathname refererUrl)) in
      (* Check if the first part is a domain prefix *)
      match pathParts with
      | first :: rest =>
          match get DOMAIN_CONFIGS first with
          | Some config =>
              let originalPath := join (lit "/") rest in
              Ok (origin_root config ++ originalPath ++ search refererUrl)
          | None => Ok (origin_root domainConfig)
          end
      | [] => Ok (origin_root domainConfig)
      end
  end.

Definition forwardable (entry : jsstring * HeaderValue) : bool :=
  let (key, value) := entry in
  let lowerKey := toLowerCase key in
  match value with HString s => truthy s | HArray _ => true end
  && negb (mem_str lowerKey FORBIDDEN_HEADERS)
  && negb (str_eqb lowerKey (lit "referer"))
  && negb (startsWith (lit "sec-fetch") lowerKey).

Definition getForwardableHeaders (domainConfig : member DomainConfig)
  : Result (object (option jsstring)) :=
  let headers :=
    fold_left
      (fun headers entry =>
         if forwardable entry then
           set headers (fst entry)
             match snd entry with
             | HString s => Some s
             | HArray l => nth_error l 0
             end
         else headers)
      (req_headers req) [] in
  let headers := set headers (lit "host") (field domain domainConfig) in
  referer <- normalizeReferer (req_header req "referer") domainConfig ;;
  let headers := set headers (lit "referer") (Some referer) in
  if mem_str (req_method req) (map lit ["POST"; "PUT"; "DELETE"]%string)
  then Ok (set headers (lit "origin")
               (Some (lit "http://" ++ interp (field domain domainConfig))))
  else Ok headers.

Definition handleNonHtmlResponse (response : FetchResponse) : M unit :=
  fold_right
    (fun entry rest =>
       (if negb (mem_str (toLowerCase (fst entry)) FORBIDDEN_HEADERS)
        then res_setHeader (fst entry) (snd entry)
        else ret tt) ;;; rest)
    (res_pipe (resp_body response))
    (resp_headers response).

Definition handleHtmlResponse (response : FetchResponse)
    (domain : option jsstring) : M unit :=
  let buffer := resp_body response in
  (* the keys read here are the configured domains and the text
     undefined: none of them names an inherited property *)
  let encoding := own domainToEncoding (interp domain) in
  text <~ lift (iconv_decode buffer encoding) ;;
  if negb (truthy text) then
    res_status 500 ;;; res_send (lit "Failed to decode text")
  else
    let htmlModifier := new_HtmlModifier domain in
    modifiedHtml <~ lift (modifyHtml htmlModifier text) ;;
    (* Always serve as UTF-8 *)
    res_setHeader (lit "Content-Type") (lit "text/html; charset=utf-8") ;;;
    res_send modifiedHtml.

(** [await fetch(targetUrl, fetchOptions)], recording the request. *)
Definition do_fetch (targetUrl : jsstring) (init : RequestInit)
  : M FetchResponse :=
  fun w =>
    (fetch targetUrl init, mkWorld (fetched w ++ [(targetUrl, init)]) (res w)).

(** The redirect step of [handle]: the response with its [location]
    rewritten. *)
Definition rewrite_location (domainConfig : member DomainConfig)
    (response : FetchResponse) : FetchResponse :=
  if ((300 <=? resp_status response) && (resp_status response <? 400))%Z then
    match Headers_get (resp_headers response) (lit "location") with
    | Some ((_ :: _) as location) =>
        (* Update location header to use our proxy *)
        let newLocation :=
          replace_first (location_re domainConfig)
            (fun _ => lit "/" ++ interp (field prefix domainConfig) ++ lit "/")
            location in
        mkResponse (resp_status response)
          (Headers_set (resp_headers response) (lit "location") newLocation)
          (resp_body response)
    | _ => response
    end
  else response.

(** The local constant [fetchOptions] of [handle]. *)
Definition fetchOptions (headers : object (option jsstring)) : RequestInit :=
  mkInit (req_method req) headers
    (if str_eqb (req_method req) (lit "GET") then None else Some (req_body req))
    (lit "manual").

(** The local constant [contentType] of [handle]: the header, or the empty
    string when it is absent or empty. *)
Definition contentType (response : FetchResponse) : jsstring :=
  match Headers_get (resp_headers response) (lit "content-type") with
  | Some ((_ :: _) as v) => v
  | _ => []
  end.

Definition handle_body : M unit :=
  let pathParts := filter truthy (split SLASH (req_url req)) in
  match pathParts with
  | [] => ret tt
  | prefix :: rest =>
      (* Get domain config from prefix *)
      match get DOMAIN_CONFIGS prefix with
      | None => ret tt
      | Some domainConfig =>
          (* Remove the prefix and add the site's path prefix *)
          let targetPath := join (lit "/") rest in
          let targetUrl := origin_root domainConfig ++ targetPath in
          headers <~ lift (getForwardableHeaders domainConfig) ;;
          response <~ do_fetch targetUrl (fetchOptions headers) ;;
          (* Handle redirects *)
          let response := rewrite_location domainConfig response in
          (* Set status code from the final response *)
          res_status (resp_status response) ;;;
          if includes (lit "text/html") (contentType response)
          then handleHtmlResponse response (field domain domainConfig)
          else handleNonHtmlResponse response
      end
  end.

Definition handle_catch (proxyError : JSError) : M unit :=
  res_status
    match err_status proxyError with
    | Some 0%Z | None => 500%Z
    | Some code => code
    end ;;;
  res_send
    match err_message proxyError with
    | Some [] | None => lit "Proxy request failed"
    | Some message => message
    end.

Definition handle : M unit := try_catch handle_body handle_catch.

(** A fresh Express response: status 200, nothing written yet. *)
Definition fresh : World := mkWorld [] (mkRes 200 [] None).

Definition run_handle : Result unit * World := handle fresh.

End ProxyHandler.

(** ** ProxyServer *)

(** Pieces of text separated by double quotes. *)
Definition quoted (parts : list string) : jsstring :=
  join [DQUOTE] (map lit parts).

(** The template of [renderHomePage], up to the list of sites. *)
Definition HOME_HEAD : jsstring :=
  join [NEWLINE]
    [ [];
      lit "      <!DOCTYPE html>";
      lit "      <html>";
      lit "        <head>";
      lit "          <title>Islamic Sites Reader</title>";
      quoted ["          <meta charset="; "utf-8"; ">"];
      lit "          <style>";
      lit "            body {";
      lit "              font-family: system-ui, -apple-system, sans-serif;";
      lit "              max-width: 800px;";
      lit "              margin: 2rem auto;";
      lit "              padding: 0 1rem;";
      lit "              line-height: 1.5;";
      lit "            }";
      lit "            .site-list {";
      lit "              display: grid;";
      lit "              gap: 1rem;";
      lit "              margin-top: 2rem;";
      lit "            }";
      lit "            .site-link {";
      lit "              padding: 1rem;";
      lit "              border: 1px solid #ddd;";
      lit "              border-radius: 0.5rem;";
      lit "              text-decoration: none;";
      lit "              color: inherit;";
      lit "              transition: all 0.2s ease;";
      lit "            }";
      lit "            .site-link:hover {";
      lit "              background: #f5f5f5;";
      lit "              transform: translateY(-1px);";
      lit "              box-shadow: 0 2px 4px rgba(0,0,0,0.1);";
      lit "            }";
      lit "            .site-name {";
      lit "              margin: 0;";
      lit "              font-size: 1.25rem;";
      lit "              color: #2563eb;";
      lit "            }";
      lit "          </style>";
      lit "        </head>";
      lit "        <body>";
      lit "          <h1>Islamic Sites Reader</h1>";
      lit "          <p>Select a site to read with proper Arabic text encoding:</p>";
      quoted ["          <div class="; "site-list"; ">"];
      lit "            " ]%string.

(** The template of one site, up to its prefix. *)
Definition LINK_OPEN : jsstring :=
  join [NEWLINE]
    [ [];
      quoted ["              <a href="; "/"] ]%string.

(** The same, between the prefix and the domain. *)
Definition LINK_MIDDLE : jsstring :=
  join [NEWLINE]
    [ quoted ["/"; " class="; "site-link"; ">"];
      quoted ["                <h2 class="; "site-name"; ">"] ]%string.

(** The same, after the domain. *)
Definition LINK_CLOSE : jsstring :=
  join [NEWLINE]
    [ lit "</h2>";
      lit "              </a>";
      lit "            " ]%string.

(** The template of [renderHomePage], after the list of sites. *)
Definition HOME_TAIL : jsstring :=
  join [NEWLINE]
    [ [];
      lit "          </div>";
      lit "        </body>";
      lit "      </html>";
      lit "    " ]%string.

(** The template applied to one entry [[prefix, config]] of
    [Object.entries(DOMAIN_CONFIGS)]. *)
Definition site_link (entry : jsstring * DomainConfig) : jsstring :=
  LINK_OPEN ++ fst entry ++ LINK_MIDDLE ++ domain (snd entry) ++ LINK_CLOSE.

Definition renderHomePage : jsstring :=
  HOME_HEAD ++ join [] (map site_link DOMAIN_CONFIGS) ++ HOME_TAIL.

Section ProxyServer.

Variable new_URL : jsstring -> jsstring -> Result URL.
Variable fetch : jsstring -> RequestInit -> Result FetchResponse.
Variable iconv_decode : list N -> option jsstring -> Result jsstring.

(** The route installed by [setupRoutes]. *)
Definition setupRoutes (req : Request) : M unit :=
  if str_eqb (req_url req) (lit "/")
  then res_send renderHomePage
  else handle new_URL fetch iconv_decode req.

(** One request served by the application, from a fresh response. *)
Definition serve (req : Request) : Result unit * World :=
  setupRoutes req fresh.

End ProxyServer.

(** ** Sample collaborators

    Concrete instances of the section variables, for the examples: a URL
    parser for inputs that are an absolute path with an optional query, an
    origin that cannot be reached, an origin that serves one fixed answer,
    and the ISO-8859-1 decoder. *)

Fixpoint before_query (s : jsstring) : jsstring :=
  match s with
  | [] => []
  | c :: s' => if char_eqb c 63%N then [] else c :: before_query s'
  end.

Fixpoint from_query (s : jsstring) : jsstring :=
  match s with
  | [] => []
  | c :: s' => if char_eqb c 63%N then s else from_query s'
  end.

Definition path_URL (input base : jsstring) : Result URL :=
  Ok (mkURL (before_query input) (from_query input)).

Definition origin_down (targetUrl : jsstring) (init : RequestInit)
  : Result FetchResponse :=
  Throw (mkError None (Some (lit "connect ECONNREFUSED"))).

Definition origin_serves (response : FetchResponse)
    (targetUrl : jsstring) (init : RequestInit) : Result FetchResponse :=
  Ok response.


Definition latin1 (buffer : list N) (encoding : option jsstring)
  : Result jsstring :=
  Ok buffer.

Definition GET (path : string) : Request :=
  mkRequest (lit path) (lit "GET") [] [].

Definition GET_from (path referer : string) : Request :=
  mkRequest (lit path) (lit "GET") [(lit "referer", HString (lit referer))] [].

(** The URLs handed to [fetch] during one call of [handle]. *)
Definition targets (out : Result unit * World) : list jsstring :=
  map fst (fetched (snd out)).

(** ** Vocabulary of the statements

    Sample requests and answers, and the notions the properties below are
    stated with. *)

(** A path segment: not empty, no slash. *)
Definition segment (s : jsstring) : Prop :=
  s <> [] /\ ~ In SLASH s.

(** A computation that issues no request. *)
Definition quiet {A} (m : M A) : Prop :=
  forall w, fetched (snd (m w)) = fetched w.

(** What [handle] does once the response of the origin is there and its
    location has been rewritten. *)
Definition relay (iconv_decode : list N -> option jsstring -> Result jsstring)
    (c : member DomainConfig) (response : FetchResponse) : M unit :=
  res_status (resp_status response) ;;;
  if includes (lit "text/html") (contentType response)
  then handleHtmlResponse iconv_decode response (field domain c)
  else handleNonHtmlResponse response.

(** The world once the request has been handed to [fetch]. *)
Definition requested (targetUrl : jsstring) (init : RequestInit) : World :=
  mkWorld [(targetUrl, init)] (res fresh).

(** An attribute: the name, an equals sign, the value in double quotes. *)
Definition attr (name value : string) : jsstring :=
  lit name ++ lit "=" ++ [DQUOTE] ++ lit value ++ [DQUOTE].

(** An anchor tag whose only attribute is [href], with that value. *)
Definition anchor (value : string) : jsstring :=
  lit "<a " ++ attr "href" value ++ lit ">".

(** The modifiers [handle] builds for the three sites. *)
Definition modifier_st : HtmlModifier :=
  new_HtmlModifier (Some (lit "salafitalk.net")).
Definition modifier_sm : HtmlModifier :=
  new_HtmlModifier (Some (lit "sahihmuslim.com")).
Definition modifier_sc : HtmlModifier :=
  new_HtmlModifier (Some (lit "salafitalk.com")).

(** [headers.referer] of the request handed to [fetch]. *)
Definition outbound_referers (out : Result unit * World)
  : list (option (option jsstring)) :=
  map (fun call => own (init_headers (snd call)) (lit "referer"))
      (fetched (snd out)).

(** An answer of the origin with a [location] header and nothing else. *)
Definition redirect (code : Z) (location : string) : FetchResponse :=
  mkResponse code [(lit "location", lit location)] [].

(** The location of the response, after the redirect step. *)
Definition relocated (c : DomainConfig) (response : FetchResponse)
  : option jsstring :=
  Headers_get (resp_headers (rewrite_location (Own c) response))
    (lit "location").

(** The URL is [http://d/...] for a configured domain [d]. *)
Definition to_allowed_domain (targetUrl : jsstring) : bool :=
  existsb (fun d => startsWith (lit "http://" ++ d ++ lit "/") targetUrl)
          ALLOWED_DOMAINS.

(** The name is in the forbidden set, once lower-cased. *)
Definition forbidden (name : jsstring) : bool :=
  mem_str (toLowerCase name) FORBIDDEN_HEADERS.

(** The same header name, up to case. *)
Definition same_name (k name : jsstring) : bool :=
  str_eqb (toLowerCase k) (toLowerCase name).




(** The first bytes of a PNG image. *)
Definition png : list N := [137; 80; 78; 71]%N.


(** An HTML page of the given status and body. *)
Definition page (code : Z) (html : jsstring) : FetchResponse :=
  mkResponse code [(lit "content-type", lit "text/html")] html.

(** The pattern has no anchor. *)
Fixpoint floating (r : regex) : bool :=
  match r with
  | RBol => false
  | RSeq r1 r2 | RAlt r1 r2 => floating r1 && floating r2
  | RGroup _ r1 | RNotAhead r1 => floating r1
  | RSet _ | REps | RStar _ => true
  end.

(** The characters an attribute value is made of: anything but a quote. *)
Definition plain (v : jsstring) : Prop :=
  Forall (fun x => mem_char x [DQUOTE; SQUOTE] = false) v.

(** What follows the opening quote in the pattern of the rule: the
    lookahead, the value as group 2, the closing quote. *)
Definition value_re : regex :=
  rseq [ RNotAhead (ralts [rtext "http"; rtext "https"; rtext "//"]);
         RGroup 2 (RStar (CNoneOf [DQUOTE; SQUOTE])); quote ].

(** The reduction that builds [DOMAIN_TO_CONFIG], on any list of
    configurations. *)
Definition index_by_domain (configs : list DomainConfig) : object DomainConfig :=
  fold_left (fun acc config => set acc (domain config) config) configs [].

(** The error of the callback of the rule for absolute URLs. *)
Definition no_prefix : JSError :=
  TypeError "Cannot read properties of undefined (reading 'prefix')".

(** The value [getForwardableHeaders] stores for an inbound header: the
    string, or the first element of the array. *)
Definition forwarded (value : HeaderValue) : option jsstring :=
  match value with
  | HString s => Some s
  | HArray l => nth_error l 0
  end.

(** What the loop of [getForwardableHeaders] leaves under a key: the value
    of the last forwardable entry of that key, if there is one. *)
Fixpoint last_forwardable (entries : object HeaderValue) (k : jsstring)
  : option (option jsstring) :=
  match entries with
  | [] => None
  | entry :: rest =>
      match last_forwardable rest k with
      | Some x => Some x
      | None =>
          if str_eqb k (fst entry) && forwardable entry
          then Some (forwarded (snd entry))
          else None
      end
  end.

(** The names [getForwardableHeaders] lets no inbound header through
    under. *)
Definition unforwardable_name (k : jsstring) : bool :=
  let lowerKey := toLowerCase k in
  mem_str lowerKey FORBIDDEN_HEADERS
  || str_eqb lowerKey (lit "referer")
  || startsWith (lit "sec-fetch") lowerKey.

(** The methods for which [getForwardableHeaders] sets [origin]. *)
Definition WRITING_METHODS : list jsstring :=
  map lit ["POST"; "PUT"; "DELETE"]%string.

(** [proxyError.status || 500] *)
Definition status_or_500 (e : JSError) : Z :=
  match err_status e with
  | Some 0%Z | None => 500%Z
  | Some code => code
  end.

(** The answer of the catch clause of [handle] on a fresh response, when
    it can be sent. *)
Definition answer_to (e : JSError) : ServerResponse :=
  mkRes match err_status e with
        | Some 0%Z | None => 500%Z
        | Some code => code
        end
        []
        (Some (Text match err_message e with
                    | Some [] | None => lit "Proxy request failed"
                    | Some message => message
                    end)).

(** A form posted through the proxy, with the headers of the browser. *)
Definition POST_form : Request :=
  mkRequest (lit "/st/post.cfm") (lit "POST")
    [(lit "host", HString (lit "proxy.example"));
     (lit "cookie", HString (lit "a=1"));
     (lit "sec-fetch-mode", HString (lit "navigate"));
     (lit "accept-language", HString []);
     (lit "origin", HString (lit "http://proxy.example"))]
    (lit "subject=salam").

(** The headers [getForwardableHeaders] builds for that request. *)
Definition POST_form_headers : object (option jsstring) :=
  [(lit "cookie", Some (lit "a=1"));
   (lit "origin", Some (lit "http://salafitalk.net"));
   (lit "host", Some (lit "salafitalk.net"));
   (lit "referer", Some (lit "http://salafitalk.net/st/"))].

(** A URL parser that rejects its input. *)
Definition rejecting_URL (input base : jsstring) : Result URL :=
  Throw (TypeError "Invalid URL").

(** * Properties *)

(** ** Strings *)

Lemma char_eqb_refl (c : char) : char_eqb c c = true.
Proof. apply N.eqb_refl. Qed.

Lemma char_eqb_eq (a b : char) : char_eqb a b = true <-> a = b.
Proof. apply N.eqb_eq. Qed.

Lemma str_eqb_eq (a b : jsstring) : str_eqb a b = true <-> a = b.
Proof.
  revert b; induction a as [|x a IH]; intros [|y b]; simpl;
    try (split; [discriminate | discriminate]); try tauto.
  rewrite andb_true_iff, char_eqb_eq, IH.
  split; [intros [-> ->]; reflexivity | intros E; inversion E; auto].
Qed.

Lemma str_eqb_refl (a : jsstring) : str_eqb a a = true.
Proof. apply str_eqb_eq; reflexivity. Qed.

Lemma split_not_nil (sep : char) (s : jsstring) : split sep s <> [].
Proof.
  destruct s as [|c s]; simpl; [discriminate|].
  destruct (char_eqb c sep); [discriminate|].
  destruct (split sep s); discriminate.
Qed.

(** Splitting distributes over a separator. *)
Lemma split_app (sep : char) (x y : jsstring) :
  split sep (x ++ sep :: y) = split sep x ++ split sep y.
Proof.
  induction x as [|c x IH]; simpl.
  - rewrite char_eqb_refl; reflexivity.
  - destruct (char_eqb c sep); [rewrite IH; reflexivity|].
    rewrite IH.
    destruct (split sep x) as [|h t] eqn:E; [|reflexivity].
    exfalso; exact (split_not_nil _ _ E).
Qed.

Lemma split_segment (s : jsstring) : ~ In SLASH s -> split SLASH s = [s].
Proof.
  induction s as [|c s IH]; simpl; intros H; [reflexivity|].
  destruct (char_eqb c SLASH) eqn:E.
  - apply char_eqb_eq in E; subst; tauto.
  - rewrite IH by tauto; reflexivity.
Qed.

Lemma parts_join (l : list jsstring) :
  Forall segment l -> l <> [] ->
  filter truthy (split SLASH (join (lit "/") l)) = l.
Proof.
  induction l as [|x l IH]; intros HF Hne; [congruence|].
  inversion HF as [|? ? [Hx Hs] HF']; subst.
  destruct l as [|y l].
  - simpl; rewrite split_segment by assumption; simpl.
    destruct x; [congruence | reflexivity].
  - change (join (lit "/") (x :: y :: l))
      with (x ++ SLASH :: join (lit "/") (y :: l)).
    rewrite split_app, filter_app, IH by (auto; discriminate).
    rewrite split_segment by assumption; simpl.
    destruct x; [congruence | reflexivity].
Qed.

(** ** The requests issued by [handle] *)

Lemma quiet_ret {A} (a : A) : quiet (ret a).
Proof. intros w; reflexivity. Qed.

Lemma quiet_lift {A} (r : Result A) : quiet (lift r).
Proof. intros w; reflexivity. Qed.

Lemma quiet_bind {A B} (m : M A) (f : A -> M B) :
  quiet m -> (forall a, quiet (f a)) -> quiet (mbind m f).
Proof.
  intros Hm Hf w; unfold mbind.
  specialize (Hm w); destruct (m w) as [[a|e] w']; simpl in *.
  - rewrite Hf; assumption.
  - assumption.
Qed.

Lemma quiet_res_status code : quiet (res_status code).
Proof. intros w; reflexivity. Qed.

Lemma quiet_res_setHeader k v : quiet (res_setHeader k v).
Proof. intros w; reflexivity. Qed.

Lemma quiet_res_send s : quiet (res_send s).
Proof.
  intros w; unfold res_send.
  destruct (valid_status _); reflexivity.
Qed.

Lemma quiet_res_pipe b : quiet (res_pipe b).
Proof. intros w; reflexivity. Qed.

Create HintDb quiet.
#[export] Hint Resolve quiet_ret quiet_lift quiet_res_status
  quiet_res_setHeader quiet_res_send quiet_res_pipe : quiet.

Ltac quiet :=
  solve [auto with quiet]
  || (apply quiet_bind; [quiet | intros; quiet])
  || idtac.

Lemma quiet_handleNonHtmlResponse response :
  quiet (handleNonHtmlResponse response).
Proof.
  unfold handleNonHtmlResponse.
  induction (resp_headers response) as [|entry l IH]; simpl.
  - quiet.
  - apply quiet_bind; [|intros; exact IH].
    destruct (negb _); quiet.
Qed.

Lemma quiet_handleHtmlResponse iconv_decode response domain :
  quiet (handleHtmlResponse iconv_decode response domain).
Proof.
  unfold handleHtmlResponse.
  apply quiet_bind; [quiet|]; intros text.
  destruct (negb (truthy text)); quiet.
Qed.

Lemma quiet_handle_catch e : quiet (handle_catch e).
Proof. unfold handle_catch; quiet. Qed.

#[export] Hint Resolve quiet_handleNonHtmlResponse quiet_handleHtmlResponse
  quiet_handle_catch : quiet.

Lemma quiet_try_catch body handler :
  quiet body -> (forall e, quiet (handler e)) -> quiet (try_catch body handler).
Proof.
  intros Hb Hh w; unfold try_catch.
  specialize (Hb w); destruct (body w) as [[[]|e] w']; simpl in *.
  - assumption.
  - rewrite Hh; assumption.
Qed.

Section Requests.

Variable new_URL : jsstring -> jsstring -> Result URL.
Variable fetch : jsstring -> RequestInit -> Result FetchResponse.
Variable iconv_decode : list N -> option jsstring -> Result jsstring.
Variable req : Request.

Let run := run_handle new_URL fetch iconv_decode req.
Let parts := filter truthy (split SLASH (req_url req)).

Lemma quiet_relay (c : member DomainConfig) (response : FetchResponse) :
  quiet (relay iconv_decode c response).
Proof.
  unfold relay; apply quiet_bind; [quiet|]; intros _.
  destruct (includes _ _); quiet.
Qed.

(** An empty path or an unresolved first segment: nothing happens. *)
Lemma handle_unresolved :
  match parts with
  | [] => True
  | first :: _ => get DOMAIN_CONFIGS first = None
  end ->
  run = (Ok tt, fresh).
Proof.
  unfold run, run_handle, handle, try_catch, handle_body; fold parts.
  destruct parts as [|first rest]; [reflexivity|].
  intros ->; reflexivity.
Qed.

(** A resolved first segment: the steps of [handle], one after the other. *)
Lemma handle_steps (first : jsstring) (rest : list jsstring)
    (c : member DomainConfig) :
  parts = first :: rest ->
  get DOMAIN_CONFIGS first = Some c ->
  let targetUrl := origin_root c ++ join (lit "/") rest in
  run =
    match getForwardableHeaders new_URL req c with
    | Throw e => handle_catch e fresh
    | Ok h =>
        let w := requested targetUrl (fetchOptions req h) in
        match fetch targetUrl (fetchOptions req h) with
        | Throw e => handle_catch e w
        | Ok response =>
            try_catch (relay iconv_decode c (rewrite_location c response))
              handle_catch w
        end
    end.
Proof.
  intros Hparts Hget targetUrl.
  unfold run, run_handle, handle, try_catch, handle_body.
  fold parts; rewrite Hparts, Hget.
  unfold mbind at 1, lift.
  destruct (getForwardableHeaders new_URL req c) as [h|e]; [|reflexivity].
  unfold mbind at 1, do_fetch; fold targetUrl.
  destruct (fetch targetUrl (fetchOptions req h)) as [response|e]; reflexivity.
Qed.

(** A resolved first segment: exactly one request, unless building the
    headers throws, and it goes to the root of the resolved entry followed
    by the remaining segments. *)
Lemma handle_resolved (first : jsstring) (rest : list jsstring)
    (c : member DomainConfig) :
  parts = first :: rest ->
  get DOMAIN_CONFIGS first = Some c ->
  targets run =
    match getForwardableHeaders new_URL req c with
    | Ok _ => [origin_root c ++ join (lit "/") rest]
    | Throw _ => []
    end.
Proof.
  intros Hparts Hget.
  rewrite (handle_steps Hparts Hget); unfold targets.
  destruct (getForwardableHeaders new_URL req c) as [h|e].
  - cbv zeta; destruct (fetch _ _) as [response|e].
    + rewrite (@quiet_try_catch _ _ (quiet_relay c _) quiet_handle_catch).
      reflexivity.
    + rewrite (quiet_handle_catch e); reflexivity.
  - rewrite (quiet_handle_catch e); reflexivity.
Qed.

End Requests.

(** ** C1: the target URL *)

Lemma get_configured (key : jsstring) (c : DomainConfig) :
  In (key, c) DOMAIN_CONFIGS ->
  get DOMAIN_CONFIGS key = Some (Own c) /\ segment key.
Proof.
  unfold DOMAIN_CONFIGS; simpl.
  intros [E|[E|[E|[]]]]; inversion E; subst; clear E;
    (split; [reflexivity|]);
    (split; [discriminate|]); unfold SLASH; simpl;
    intuition discriminate.
Qed.

Lemma parts_of_path (key rest : jsstring) :
  segment key ->
  filter truthy (split SLASH (lit "/" ++ key ++ lit "/" ++ rest))
  = key :: filter truthy (split SLASH rest).
Proof.
  intros [Hne Hs].
  change (lit "/" ++ key ++ lit "/" ++ rest) with (SLASH :: (key ++ SLASH :: rest)).
  cbn [split]; rewrite char_eqb_refl; cbn [filter truthy].
  rewrite split_app, filter_app, split_segment by assumption.
  destruct key; [congruence | reflexivity].
Qed.

Lemma join_parts (segs : list jsstring) :
  Forall segment segs ->
  join (lit "/") (filter truthy (split SLASH (join (lit "/") segs)))
  = join (lit "/") segs.
Proof.
  intros HF; destruct segs as [|x segs]; [reflexivity|].
  rewrite parts_join by (auto; discriminate); reflexivity.
Qed.

(** C1, as the code has it: for every configured prefix [key] and every
    remaining path [rest], the request built for the inbound path
    [/key/rest] goes to [http://{domain}/{pathPrefix}/] followed by the
    non-empty segments of [rest] joined by a slash, which is [rest] itself
    when [rest] is made of non-empty segments; no request is issued when
    building the headers throws.  The pieces are concatenated as they are:
    an empty [pathPrefix] leaves two slashes after the host. *)
Theorem C1_target_url
    (new_URL : jsstring -> jsstring -> Result URL)
    (fetch : jsstring -> RequestInit -> Result FetchResponse)
    (iconv_decode : list N -> option jsstring -> Result jsstring)
    (req : Request) (key : jsstring) (c : DomainConfig) (rest : jsstring) :
  In (key, c) DOMAIN_CONFIGS ->
  req_url req = lit "/" ++ key ++ lit "/" ++ rest ->
  targets (run_handle new_URL fetch iconv_decode req)
  = match getForwardableHeaders new_URL req (Own c) with
    | Ok _ =>
        [ lit "http://" ++ domain c ++ lit "/" ++ pathPrefix c ++ lit "/"
            ++ join (lit "/") (filter truthy (split SLASH rest)) ]
    | Throw _ => []
    end
  /\ (forall segs, Forall segment segs -> rest = join (lit "/") segs ->
      join (lit "/") (filter truthy (split SLASH rest)) = rest).
Proof.
  intros Hin Hurl; split.
  - destruct (get_configured Hin) as [Hget Hseg].
    rewrite (@handle_resolved new_URL fetch iconv_decode req
               key (filter truthy (split SLASH rest)) (Own c)).
    + unfold origin_root; cbn [field interp].
      destruct (getForwardableHeaders _ _ _); [|reflexivity].
      rewrite <- !app_assoc; reflexivity.
    + rewrite Hurl; apply parts_of_path; assumption.
    + assumption.
  - intros segs HF ->; apply join_parts; assumption.
Qed.

Lemma C1_target_url_witness :
  targets (run_handle path_URL origin_down latin1 (GET "/sm/book/1"))
  = [ lit "http://sahihmuslim.com/sps/smm/book/1" ].
Proof.
  destruct (@C1_target_url path_URL origin_down latin1 (GET "/sm/book/1")
              (lit "sm") config_sm (lit "book/1"))
    as [H _].
  - simpl; auto.
  - reflexivity.
  - rewrite H; reflexivity.
Defined.

(** For the site [sc] the target has two slashes after the host, not the
    collapsed URL. *)
Lemma C1_counterexample :
  targets (run_handle path_URL origin_down latin1 (GET "/sc/foo"))
  = [ lit "http://salafitalk.com//foo" ]
  /\ targets (run_handle path_URL origin_down latin1 (GET "/sc/foo"))
     <> [ lit "http://salafitalk.com/foo" ].
Proof.
  split; [reflexivity | vm_compute; discriminate].
Qed.

(** ** Replacement, one match at a time *)

(** A pattern without anchor matches the same way wherever the text
    stands in the subject. *)
Lemma rmatch_shift (r : regex) :
  floating r = true ->
  forall (R : Type) (d pos : nat) (s : jsstring) (caps : captures)
         (k1 k2 : nat -> jsstring -> captures -> option R),
    (forall p s' c, k1 (p + d) s' c = k2 p s' c) ->
    rmatch r (pos + d) s caps k1 = rmatch r pos s caps k2.
Proof.
  induction r as [cs| |r1 IH1 r2 IH2|r1 IH1 r2 IH2|cs|i r1 IH1|r1 IH1|];
    cbn [floating]; intros Hf R d pos s caps k1 k2 Hk.
  - cbn [rmatch]; destruct s as [|c s]; [reflexivity|].
    destruct (cset_mem cs c); [apply (Hk (S pos)) | reflexivity].
  - apply Hk.
  - apply andb_true_iff in Hf; destruct Hf as [Hf1 Hf2].
    cbn [rmatch]; apply IH1; [exact Hf1|].
    intros p s' c; apply IH2; assumption.
  - apply andb_true_iff in Hf; destruct Hf as [Hf1 Hf2].
    cbn [rmatch].
    rewrite (IH1 Hf1 R d pos s caps k1 k2 Hk).
    rewrite (IH2 Hf2 R d pos s caps k1 k2 Hk).
    reflexivity.
  - cbn [rmatch]; revert pos; induction s as [|c s IHs]; intros pos.
    + apply Hk.
    + destruct (cset_mem cs c); [|apply Hk].
      change (S (pos + d)) with (S pos + d).
      rewrite (IHs (S pos)), Hk; reflexivity.
  - cbn [rmatch]; apply IH1; [exact Hf|].
    intros p s' c.
    replace (p + d - (pos + d)) with (p - pos) by lia.
    apply Hk.
  - cbn [rmatch].
    rewrite (IH1 Hf unit d pos s caps (fun _ _ _ => Some tt)
               (fun _ _ _ => Some tt)) by reflexivity.
    destruct (rmatch r1 pos s caps _); [reflexivity | apply Hk].
  - discriminate.
Qed.

Lemma exec_shift (r : regex) (pos : nat) (s : jsstring) :
  floating r = true -> exec r pos s = exec r 0 s.
Proof.
  intros Hf; unfold exec.
  change pos with (0 + pos) at 1.
  apply rmatch_shift; [exact Hf|].
  intros p s' c; f_equal; f_equal; lia.
Qed.

Section Replace.

Variable r : regex.
Variable f : captures -> Result jsstring.
Hypothesis r_floating : floating r = true.

Lemma replace_go_shift (s : jsstring) :
  forall pos skip, replace_go r f pos skip s = replace_go r f 0 skip s.
Proof.
  induction s as [|c s IH]; intros pos skip.
  - destruct skip; cbn [replace_go]; [|reflexivity].
    rewrite (exec_shift r pos [] r_floating); reflexivity.
  - destruct skip as [|n]; cbn [replace_go].
    + rewrite (exec_shift r pos (c :: s) r_floating).
      destruct (exec r 0 (c :: s)) as [[[|len] caps]|];
        rewrite (IH (S pos)), (IH 1); reflexivity.
    + rewrite (IH (S pos)), (IH 1); reflexivity.
Qed.

Lemma replace_go_skip (m rest : jsstring) (pos : nat) :
  replace_go r f pos (List.length m) (m ++ rest) = replace_all r f rest.
Proof.
  revert pos; induction m as [|c m IH]; intros pos.
  - apply replace_go_shift.
  - cbn [List.length app replace_go]; apply IH.
Qed.

(** The text begins with a match [m]: its replacement, then the
    replacement of what follows. *)
Lemma replace_all_match (m rest : jsstring) (caps : captures) :
  m <> [] ->
  exec r 0 (m ++ rest) = Some (List.length m, caps) ->
  replace_all r f (m ++ rest)
  = out <- f caps ;; t <- replace_all r f rest ;; Ok (out ++ t).
Proof.
  intros Hm He; destruct m as [|c m]; [congruence|].
  unfold replace_all at 1; cbn [app replace_go].
  cbn [app] in He; rewrite He; cbn [List.length].
  rewrite replace_go_skip; reflexivity.
Qed.

(** No match begins at the first character: it is kept. *)
Lemma replace_all_keep (c : char) (s : jsstring) :
  exec r 0 (c :: s) = None ->
  replace_all r f (c :: s) = t <- replace_all r f s ;; Ok (c :: t).
Proof.
  intros He; unfold replace_all at 1; cbn [replace_go]; rewrite He.
  rewrite replace_go_shift; reflexivity.
Qed.

End Replace.

Lemma floating_absolute_re : floating absolute_re = true.
Proof. reflexivity. Qed.

Lemma floating_relative_re : floating relative_re = true.
Proof. reflexivity. Qed.

(** X5.  The rule for absolute URLs, on a link to any configured site: the
    attribute, either quote, either scheme, the host and the path prefix of
    the site are replaced by the attribute and the proxy prefix of that
    site. *)
Lemma absolute_rule (site : DomainConfig) (a q scheme rest : jsstring) :
  In site (values DOMAIN_CONFIGS) ->
  a = lit "href" \/ a = lit "src" ->
  q = [DQUOTE] \/ q = [SQUOTE] ->
  scheme = lit "http" \/ scheme = lit "https" ->
  replace_all absolute_re absolute_fn
    (a ++ lit "=" ++ q ++ scheme ++ lit "://" ++ domain site ++ lit "/"
       ++ pathPrefix site ++ lit "/" ++ rest)
  = t <- replace_all absolute_re absolute_fn rest ;;
    Ok (a ++ lit "=" ++ [DQUOTE] ++ lit "/" ++ prefix site ++ lit "/" ++ t).
Proof.
  unfold values, DOMAIN_CONFIGS; cbn [map snd In].
  intros [<-|[<-|[<-|[]]]] [->| ->] [->| ->] [->| ->];
    match goal with
    | |- replace_all _ _ (?a ++ ?e ++ ?q ++ ?s ++ ?c ++ ?d ++ ?l ++ ?p ++ ?l' ++ rest) = _ =>
        change (a ++ e ++ q ++ s ++ c ++ d ++ l ++ p ++ l' ++ rest)
          with ((a ++ e ++ q ++ s ++ c ++ d ++ l ++ p ++ l') ++ rest);
        erewrite (@replace_all_match absolute_re absolute_fn
                    floating_absolute_re (a ++ e ++ q ++ s ++ c ++ d ++ l ++ p ++ l'));
          [ | vm_compute; discriminate | vm_compute; reflexivity ]
    end;
    cbn [bind absolute_fn];
    destruct (replace_all absolute_re absolute_fn rest); reflexivity.
Qed.

(** ** The rule for relative URLs *)

Lemma char_eqb_sym (a b : char) : char_eqb a b = char_eqb b a.
Proof. apply N.eqb_sym. Qed.

(** A pattern source without dot matches the text itself. *)
Lemma rmatch_literal (p : jsstring) :
  mem_char 46%N p = false ->
  forall (R : Type) (pos : nat) (s : jsstring) (caps : captures)
         (k : nat -> jsstring -> captures -> option R),
    rmatch (rsource p) pos s caps k
    = if startsWith p s
      then k (pos + List.length p) (skipn (List.length p) s) caps
      else None.
Proof.
  induction p as [|c p IH]; intros Hp R pos s caps k.
  - cbn [rsource rmatch startsWith List.length skipn].
    rewrite Nat.add_0_r; reflexivity.
  - cbn [mem_char] in Hp; apply orb_false_iff in Hp; destruct Hp as [Hc Hp].
    cbn [rsource]; unfold rchar; rewrite char_eqb_sym, Hc.
    cbn [rmatch cset_mem]; destruct s as [|x s]; [reflexivity|].
    cbn [startsWith List.length skipn].
    rewrite (char_eqb_sym c x).
    destruct (char_eqb x c); [|reflexivity].
    rewrite (IH Hp), Nat.add_succ_r; reflexivity.
Qed.

Lemma startsWith_longer (p x s : jsstring) :
  startsWith p s = false -> startsWith (p ++ x) s = false.
Proof.
  revert s; induction p as [|c p IH]; intros s; [discriminate|].
  destruct s as [|y s]; [reflexivity|].
  cbn [app startsWith]; intros H.
  apply andb_false_iff in H; apply andb_false_iff.
  destruct H; [left | right]; auto.
Qed.

(** The lookahead of the rule lets a value pass that begins neither with
    [http] nor with two slashes. *)
Lemma lookahead_relative (pos : nat) (s : jsstring) (caps : captures) :
  startsWith (lit "http") s = false ->
  startsWith (lit "//") s = false ->
  rmatch (ralts [rtext "http"; rtext "https"; rtext "//"]) pos s caps
    (fun _ _ _ => Some tt) = None.
Proof.
  intros Hh Hs; cbn [ralts rmatch]; unfold rtext.
  rewrite !rmatch_literal by reflexivity.
  rewrite Hh, Hs.
  change (lit "https") with (lit "http" ++ lit "s").
  rewrite (startsWith_longer _ _ _ Hh); reflexivity.
Qed.

(** The greedy star runs over [v] when the continuation rejects every
    text that begins with a character of the class. *)
Lemma rmatch_star_run (R : Type) (cs : cset) (v t : jsstring)
    (caps : captures) (k : nat -> jsstring -> captures -> option R) :
  Forall (fun x => cset_mem cs x = true) v ->
  match t with [] => True | x :: _ => cset_mem cs x = false end ->
  (forall p x s, cset_mem cs x = true -> k p (x :: s) caps = None) ->
  forall pos,
    rmatch (RStar cs) pos (v ++ t) caps k = k (pos + List.length v) t caps.
Proof.
  intros Hv Ht Hk; cbn [rmatch].
  induction v as [|x v IH]; intros pos.
  - cbn [app List.length]; rewrite Nat.add_0_r.
    destruct t as [|y t]; [reflexivity|].
    rewrite Ht; reflexivity.
  - inversion Hv as [|? ? Hx Hv']; subst.
    cbn [app List.length]; rewrite Hx, (IH Hv' (S pos)), Nat.add_succ_r.
    cbn [Nat.add].
    destruct (k (S (pos + List.length v)) t caps) eqn:E; [reflexivity|].
    apply Hk; exact Hx.
Qed.

Lemma startsWith_plain (p v : jsstring) (q : char) (rest : jsstring) :
  plain p -> mem_char q [DQUOTE; SQUOTE] = true ->
  startsWith p (v ++ q :: rest) = startsWith p v.
Proof.
  intros Hp Hq; revert v; induction Hp as [|c p Hc Hp IH]; intros v.
  - reflexivity.
  - destruct v as [|x v]; cbn [app startsWith].
    + destruct (char_eqb c q) eqn:E; [|reflexivity].
      apply char_eqb_eq in E; subst; congruence.
    + rewrite IH; reflexivity.
Qed.

Lemma rmatch_value (R : Type) (v rest : jsstring) (q : char) (pos : nat)
    (caps : captures) (k : nat -> jsstring -> captures -> option R) :
  plain v ->
  mem_char q [DQUOTE; SQUOTE] = true ->
  startsWith (lit "http") v = false ->
  startsWith (lit "//") v = false ->
  rmatch value_re pos (v ++ q :: rest) caps k
  = k (S (pos + List.length v)) rest ((2, v) :: caps).
Proof.
  intros Hv Hq Hh Hs; unfold value_re; cbn [rseq].
  cbn [rmatch].
  rewrite lookahead_relative
    by (rewrite startsWith_plain; auto; repeat constructor).
  change (rmatch (RStar (CNoneOf [DQUOTE; SQUOTE])) pos (v ++ q :: rest) caps
            (fun pos1 s1 caps1 =>
               rmatch quote pos1 s1
                 ((2, firstn (pos1 - pos) (v ++ q :: rest)) :: caps1) k)
          = k (S (pos + List.length v)) rest ((2, v) :: caps)).
  rewrite rmatch_star_run.
  - unfold quote; cbn [rmatch cset_mem]; rewrite Hq.
    replace (pos + List.length v - pos) with (List.length v) by lia.
    rewrite firstn_app, Nat.sub_diag, firstn_all; cbn [firstn].
    rewrite app_nil_r; reflexivity.
  - apply Forall_impl with (2 := Hv); intros x Hx.
    cbn [cset_mem]; rewrite Hx; reflexivity.
  - cbn [cset_mem]; rewrite Hq; reflexivity.
  - intros p x s Hx; unfold quote; cbn [rmatch cset_mem] in *.
    apply negb_true_iff in Hx; rewrite Hx; reflexivity.
Qed.

(** The attribute name, the equals sign and the opening quote, followed by
    any pattern. *)
Lemma rmatch_attr (R : Type) (T : regex) (a : jsstring) (q : char)
    (s : jsstring) (k : nat -> jsstring -> captures -> option R) :
  a = lit "href" \/ a = lit "src" ->
  mem_char q [DQUOTE; SQUOTE] = true ->
  rmatch (RSeq attr_group (RSeq (rtext "=") (RSeq quote T))) 0
    (a ++ lit "=" ++ q :: s) [] k
  = rmatch T (List.length a + 2) s [(1, a)] k.
Proof.
  intros Ha Hq.
  assert (Hq' : q = DQUOTE \/ q = SQUOTE).
  { cbn [mem_char] in Hq; rewrite orb_false_r in Hq.
    apply orb_true_iff in Hq; destruct Hq as [E|E];
      apply char_eqb_eq in E; auto. }
  destruct Ha as [->| ->]; destruct Hq' as [->| ->]; cbn;
    try reflexivity; destruct (rmatch T 6 s _ k); reflexivity.
Qed.

(** The rule for relative URLs prefixes every value that begins neither
    with [http] nor with two slashes, whatever else it begins with. *)
Lemma relative_rule (c : member DomainConfig) (a v rest : jsstring)
    (q q' : char) :
  a = lit "href" \/ a = lit "src" ->
  mem_char q [DQUOTE; SQUOTE] = true ->
  mem_char q' [DQUOTE; SQUOTE] = true ->
  plain v ->
  startsWith (lit "http") v = false ->
  startsWith (lit "//") v = false ->
  replace_tpl relative_re (relative_tpl c)
    (a ++ lit "=" ++ q :: v ++ q' :: rest)
  = t <- replace_tpl relative_re (relative_tpl c) rest ;;
    Ok (a ++ lit "=" ++ [DQUOTE] ++ lit "/" ++ interp (field prefix c)
          ++ lit "/" ++ v ++ [DQUOTE] ++ t).
Proof.
  intros Ha Hq Hq' Hv Hh Hs; unfold replace_tpl.
  replace (a ++ lit "=" ++ q :: v ++ q' :: rest)
    with ((a ++ lit "=" ++ q :: v ++ [q']) ++ rest)
    by (rewrite <- !app_assoc; cbn [app]; rewrite <- app_assoc; reflexivity).
  rewrite (@replace_all_match relative_re _ floating_relative_re
             (a ++ lit "=" ++ q :: v ++ [q']) rest [(2, v); (1, a)]).
  - cbn [bind]; unfold replace_all.
    destruct (replace_go relative_re _ 0 0 rest) as [t|e]; [|reflexivity].
    cbn [bind]; f_equal.
    unfold expand, relative_tpl, prefix_tpl.
    cbn [app map expand_item capture Nat.eqb List.concat].
    repeat (rewrite <- app_assoc || rewrite <- app_comm_cons).
    reflexivity.
  - destruct Ha as [->| ->]; discriminate.
  - unfold exec.
    replace ((a ++ lit "=" ++ q :: v ++ [q']) ++ rest)
      with (a ++ lit "=" ++ q :: v ++ q' :: rest)
      by (rewrite <- !app_assoc; cbn [app]; rewrite <- app_assoc; reflexivity).
    change relative_re
      with (RSeq attr_group (RSeq (rtext "=") (RSeq quote value_re))).
    rewrite (@rmatch_attr _ value_re a q _ _ Ha Hq), rmatch_value
      by assumption.
    f_equal; f_equal.
    rewrite !length_app; cbn [List.length lit map list_ascii_of_string].
    rewrite !length_app; cbn [List.length]; lia.
Qed.

(** In particular a value that already begins with the prefix of the site
    is prefixed again, for every configured site and every value. *)
Lemma relative_rule_prefixed (site : DomainConfig) (a w rest : jsstring)
    (q q' : char) :
  In site (values DOMAIN_CONFIGS) ->
  a = lit "href" \/ a = lit "src" ->
  mem_char q [DQUOTE; SQUOTE] = true ->
  mem_char q' [DQUOTE; SQUOTE] = true ->
  plain w ->
  replace_tpl relative_re (relative_tpl (Own site))
    (a ++ lit "=" ++ q :: (lit "/" ++ prefix site ++ lit "/" ++ w) ++ q' :: rest)
  = t <- replace_tpl relative_re (relative_tpl (Own site)) rest ;;
    Ok (a ++ lit "=" ++ [DQUOTE] ++ lit "/" ++ prefix site ++ lit "/"
          ++ (lit "/" ++ prefix site ++ lit "/" ++ w) ++ [DQUOTE] ++ t).
Proof.
  intros Hin Ha Hq Hq' Hw.
  apply (relative_rule (Own site)); try assumption;
    unfold values, DOMAIN_CONFIGS in Hin; cbn [map snd In] in Hin;
    destruct Hin as [<-|[<-|[<-|[]]]]; try reflexivity;
    unfold plain; cbn [prefix config_st config_sm config_sc lit map
                       list_ascii_of_string app];
    repeat (constructor; [reflexivity|]); exact Hw.
Qed.


(** X21.  The rule for relative URLs prefixes every value that begins
    neither with [http] nor with two slashes, and rewrites both quotes as
    double quotes; its own output is such a value, so a second application
    prefixes the value a second time. *)
Lemma relative_rule_twice (site : DomainConfig) (a v : jsstring) (q q' : char) :
  In site (values DOMAIN_CONFIGS) ->
  a = lit "href" \/ a = lit "src" ->
  mem_char q [DQUOTE; SQUOTE] = true ->
  mem_char q' [DQUOTE; SQUOTE] = true ->
  plain v ->
  startsWith (lit "http") v = false ->
  startsWith (lit "//") v = false ->
  let rule := replace_tpl relative_re (relative_tpl (Own site)) in
  let once := a ++ lit "=" ++ DQUOTE :: (lit "/" ++ prefix site ++ lit "/" ++ v)
                ++ [DQUOTE] in
  let twice := a ++ lit "=" ++ DQUOTE ::
                 (lit "/" ++ prefix site ++ lit "/" ++ lit "/" ++ prefix site
                    ++ lit "/" ++ v) ++ [DQUOTE] in
  rule (a ++ lit "=" ++ q :: v ++ [q']) = Ok once
  /\ rule once = Ok twice
  /\ once <> twice.
Proof.
  intros Hin Ha Hq Hq' Hv Hh Hs rule once twice.
  assert (Hnil : rule [] = Ok []) by reflexivity.
  split; [|split].
  - unfold rule; rewrite relative_rule by assumption.
    fold rule; rewrite Hnil; cbn [bind].
    unfold once; cbn [field interp].
    repeat (rewrite <- app_assoc || rewrite <- app_comm_cons).
    reflexivity.
  - unfold rule, once.
    rewrite (@relative_rule_prefixed site a v [] DQUOTE DQUOTE)
      by (assumption || reflexivity).
    fold rule; rewrite Hnil; cbn [bind].
    unfold twice.
    repeat (rewrite <- app_assoc || rewrite <- app_comm_cons).
    reflexivity.
  - unfold once, twice; intros E.
    apply (f_equal (@List.length char)) in E.
    repeat (progress (try rewrite !length_app in E;
                      cbn [List.length lit map list_ascii_of_string] in E)).
    lia.
Qed.

(** ** C2, C3, C4: the link rewriter *)

Example modifyHtml_relative :
  modifyHtml modifier_st (anchor "page.html") = Ok (anchor "/st/page.html").
Proof. reflexivity. Qed.

Example modifyHtml_absolute_elsewhere :
  modifyHtml modifier_st (anchor "http://example.org/x")
  = Ok (anchor "http://example.org/x").
Proof. reflexivity. Qed.

Example modifyHtml_meta :
  modifyHtml modifier_sm (lit "<head><title>t</title></head>")
  = Ok (lit "<head><title>t</title>" ++ META_TAG).
Proof. reflexivity. Qed.

(** C2 (the code departs from it): the rewriter is not idempotent.  On
    [<a href="page.html">] under the site [st] one pass yields
    [/st/page.html] and a second pass yields [/st//st/page.html]: the
    pattern for relative URLs also matches a value that starts with a
    single slash, so every pass adds the prefix again. *)
Theorem C2_rewrite_twice :
  modifyHtml modifier_st (anchor "page.html") = Ok (anchor "/st/page.html")
  /\ modifyHtml modifier_st (anchor "/st/page.html")
     = Ok (anchor "/st//st/page.html")
  /\ anchor "/st//st/page.html" <> anchor "/st/page.html".
Proof.
  split; [reflexivity|]; split; [reflexivity|].
  vm_compute; discriminate.
Qed.

(** C3 (the code departs from it): within one pass the rule for relative
    URLs prefixes values that are not relative.  A value that already
    begins with [/st/] is prefixed again, by that rule taken alone as by the
    whole pipeline; and a root-relative value that the rule before it has
    just rewritten is prefixed a second time. *)
Theorem C3_double_prefix :
  modifyHtml modifier_st (anchor "/st/foo") = Ok (anchor "/st//st/foo")
  /\ replace_tpl relative_re (relative_tpl (Own config_st)) (anchor "/st/foo")
     = Ok (anchor "/st//st/foo")
  /\ replace_tpl (root_other_re (Own config_st)) (prefix_tpl (Own config_st))
       (anchor "/foo")
     = Ok (anchor "/st/foo")
  /\ modifyHtml modifier_st (anchor "/foo") = Ok (anchor "/st//st/foo").
Proof. repeat split; reflexivity. Qed.

(** C4 (the code departs from it): on a page served under [st], a link to
    the origin of [sm] does not come out as [/sm/book/1].  The first rule
    produces [/sm/book/1], the rule for other root-relative URLs then puts
    [/st/] in front of it, and the rule for relative URLs once more.  A
    link to the current site is doubled in the same way.  Besides, the
    first rule takes any configured path prefix after any configured host:
    [sahihmuslim.com/st/] is rewritten as if [st] were the path prefix of
    that host. *)
Theorem C4_cross_site :
  replace_all absolute_re absolute_fn
    (anchor "http://sahihmuslim.com/sps/smm/book/1")
  = Ok (anchor "/sm/book/1")
  /\ modifyHtml modifier_st (anchor "http://sahihmuslim.com/sps/smm/book/1")
     = Ok (anchor "/st//st/sm/book/1")
  /\ modifyHtml modifier_st (anchor "https://salafitalk.net/st/page")
     = Ok (anchor "/st//st/page")
  /\ replace_all absolute_re absolute_fn (anchor "http://sahihmuslim.com/st/x")
     = Ok (anchor "/sm/x").
Proof. repeat split; reflexivity. Qed.

(** ** C5: the referer *)

Section Referer.

Variable new_URL : jsstring -> jsstring -> Result URL.
Variable req : Request.

(** No referer, or an empty one: the root of the current site. *)
Lemma normalizeReferer_absent (c : member DomainConfig) :
  normalizeReferer new_URL req None c = Ok (origin_root c)
  /\ normalizeReferer new_URL req (Some []) c = Ok (origin_root c).
Proof. split; reflexivity. Qed.

(** X18.  A referer whose first path segment is a configured prefix: the
    outbound referer is the root of that prefix's own site, followed by the
    remaining non-empty segments of the path and by the query, whatever the
    site of the request itself. *)
Lemma normalizeReferer_known (referer : jsstring) (u : URL)
    (q : jsstring) (rest : list jsstring) (site : DomainConfig)
    (c : member DomainConfig) :
  referer <> [] ->
  new_URL referer (lit "http://" ++ interp (req_header req "host")) = Ok u ->
  filter truthy (split SLASH (pathname u)) = q :: rest ->
  In (q, site) DOMAIN_CONFIGS ->
  normalizeReferer new_URL req (Some referer) c
  = Ok (lit "http://" ++ domain site ++ lit "/" ++ pathPrefix site ++ lit "/"
          ++ join (lit "/") rest ++ search u).
Proof.
  intros Hne Hu Hparts Hin.
  destruct referer as [|x referer]; [congruence|].
  unfold normalizeReferer; rewrite Hu; cbn [bind].
  rewrite Hparts, (proj1 (get_configured Hin)).
  unfold origin_root; cbn [field interp].
  rewrite <- !app_assoc; reflexivity.
Qed.

(** X23.  A referer whose first path segment resolves to nothing, or that
    has no path segment: the outbound referer is the root of the current
    site, and nothing of the inbound referer is passed on. *)
Lemma normalizeReferer_unresolved (referer : jsstring) (u : URL)
    (c : member DomainConfig) :
  new_URL referer (lit "http://" ++ interp (req_header req "host")) = Ok u ->
  match filter truthy (split SLASH (pathname u)) with
  | [] => True
  | first :: _ => get DOMAIN_CONFIGS first = None
  end ->
  normalizeReferer new_URL req (Some referer) c = Ok (origin_root c).
Proof.
  intros Hu Hparts.
  destruct referer as [|x referer]; [reflexivity|].
  unfold normalizeReferer; rewrite Hu; cbn [bind].
  destruct (filter truthy (split SLASH (pathname u))) as [|first rest];
    [reflexivity|].
  rewrite Hparts; reflexivity.
Qed.

End Referer.

(** The example of the specification: the referer [/sm/book/1] under the
    current site [st]. *)
Example normalizeReferer_cross_site :
  normalizeReferer path_URL (GET "/st/x") (Some (lit "/sm/book/1"))
    (Own config_st)
  = Ok (lit "http://sahihmuslim.com/sps/smm/book/1").
Proof. reflexivity. Qed.

(** C5 (the code departs from it): the test for a known prefix is a
    property read on the object literal [DOMAIN_CONFIGS], which also finds
    what the object inherits.  A referer whose first path segment is
    [constructor] is no configured prefix, yet the outbound referer is not
    the root of the current site: it is built from the properties of the
    inherited value, which are all [undefined]. *)
Theorem C5_inherited_referer :
  own DOMAIN_CONFIGS (lit "constructor") = None
  /\ normalizeReferer path_URL (GET "/st/x") (Some (lit "/constructor/x"))
       (Own config_st)
     = Ok (lit "http://undefined/undefined/x")
  /\ outbound_referers
       (run_handle path_URL origin_down latin1
          (GET_from "/st/page" "/constructor/x"))
     = [ Some (Some (lit "http://undefined/undefined/x")) ]
  /\ origin_root (Own config_st) = lit "http://salafitalk.net/st/".
Proof. repeat split; reflexivity. Qed.

(** ** C6: redirects *)

Lemma replace_location_configured (c : DomainConfig) (scheme rest : jsstring) :
  In c (values DOMAIN_CONFIGS) ->
  scheme = lit "http" \/ scheme = lit "https" ->
  replace_first (location_re (Own c))
    (fun _ => lit "/" ++ interp (field prefix (Own c)) ++ lit "/")
    (scheme ++ lit "://" ++ domain c ++ lit "/" ++ pathPrefix c ++ lit "/"
       ++ rest)
  = lit "/" ++ prefix c ++ lit "/" ++ rest.
Proof.
  unfold values, DOMAIN_CONFIGS; simpl.
  intros [<-|[<-|[<-|[]]]] [->| ->]; vm_compute; reflexivity.
Qed.

(** X17.  A redirect to the origin of the current site re-enters the
    proxy: for a status in 300..399, a location that begins with the scheme
    [http] or [https], the domain of the site and its path prefix between
    slashes has that beginning replaced by the proxy prefix between
    slashes; what follows is kept. *)
Lemma rewrite_location_configured (c : DomainConfig) (code : Z)
    (scheme rest : jsstring) (h : Headers) (b : list N) :
  In c (values DOMAIN_CONFIGS) ->
  scheme = lit "http" \/ scheme = lit "https" ->
  (300 <= code < 400)%Z ->
  let location :=
    scheme ++ lit "://" ++ domain c ++ lit "/" ++ pathPrefix c ++ lit "/"
      ++ rest in
  rewrite_location (Own c) (mkResponse code ((lit "location", location) :: h) b)
  = mkResponse code ((lit "location", lit "/" ++ prefix c ++ lit "/" ++ rest) :: h) b.
Proof.
  intros Hin Hs Hcode location.
  unfold rewrite_location; cbn [resp_status resp_headers resp_body].
  replace ((300 <=? code)%Z && (code <? 400)%Z) with true
    by (symmetry; apply andb_true_iff; split;
        [apply Z.leb_le | apply Z.ltb_lt]; lia).
  change (Headers_get ((lit "location", location) :: h) (lit "location"))
    with (Some location).
  assert (Hl : exists x l, location = x :: l).
  { subst location; destruct Hs as [->| ->]; eexists; eexists; reflexivity. }
  destruct Hl as (x & l & Hl); rewrite Hl; rewrite <- Hl.
  subst location; rewrite replace_location_configured by assumption.
  reflexivity.
Qed.


(** The examples of the specification. *)
Example rewrite_location_st :
  relocated config_st (redirect 302 "http://salafitalk.net/st/page2")
  = Some (lit "/st/page2").
Proof. reflexivity. Qed.

Example rewrite_location_elsewhere :
  relocated config_st (redirect 302 "http://example.org/st/page2")
  = Some (lit "http://example.org/st/page2").
Proof. reflexivity. Qed.

(** C6 (the code departs from it): the host is spliced into the pattern
    as it is, so each of its dots stands for any character.  A redirect to
    the host [salafitalk-net], which is not the origin of [st], does not
    pass through unchanged: it is rewritten to [/st/page2]. *)
Theorem C6_foreign_location :
  relocated config_st (redirect 302 "http://salafitalk-net/st/page2")
  = Some (lit "/st/page2")
  /\ lit "salafitalk-net" <> domain config_st.
Proof. split; [reflexivity | vm_compute; discriminate]. Qed.

(** ** C7: the hosts requests go to *)

Lemma startsWith_app (p s : jsstring) : startsWith p (p ++ s) = true.
Proof.
  induction p as [|x p IH]; [reflexivity|].
  simpl; rewrite char_eqb_refl; exact IH.
Qed.

Lemma mem_str_In (s : jsstring) (l : list jsstring) :
  mem_str s l = true <-> In s l.
Proof.
  induction l as [|x l IH]; simpl; [split; [discriminate | tauto]|].
  rewrite orb_true_iff, str_eqb_eq, IH; intuition congruence.
Qed.

Section Hosts.

Variable new_URL : jsstring -> jsstring -> Result URL.
Variable fetch : jsstring -> RequestInit -> Result FetchResponse.
Variable iconv_decode : list N -> option jsstring -> Result jsstring.
Variable req : Request.

Let run := run_handle new_URL fetch iconv_decode req.
Let parts := filter truthy (split SLASH (req_url req)).

(** A first segment that is a configured prefix: every request goes to the
    domain of that prefix. *)
Lemma handle_configured_host (first : jsstring) (rest : list jsstring)
    (c : DomainConfig) :
  parts = first :: rest ->
  In (first, c) DOMAIN_CONFIGS ->
  forall u, In u (targets run) ->
    startsWith (lit "http://" ++ domain c ++ lit "/") u = true
    /\ In (domain c) ALLOWED_DOMAINS.
Proof.
  intros Hparts Hin u Hu; split.
  - unfold run in Hu.
    rewrite (@handle_resolved new_URL fetch iconv_decode req first rest (Own c))
      in Hu by (auto; apply (get_configured Hin)).
    destruct (getForwardableHeaders _ _ _); [|destruct Hu].
    destruct Hu as [<-|[]].
    unfold origin_root; cbn [field interp].
    replace ((lit "http://" ++ domain c ++ lit "/" ++ pathPrefix c ++ lit "/")
               ++ join (lit "/") rest)
      with ((lit "http://" ++ domain c ++ lit "/")
              ++ (pathPrefix c ++ lit "/" ++ join (lit "/") rest))
      by (rewrite <- !app_assoc; reflexivity).
    apply startsWith_app.
  - unfold ALLOWED_DOMAINS, values.
    apply (in_map snd) in Hin; apply (in_map domain) in Hin; exact Hin.
Qed.

(** X15.  A first segment that is neither a configured prefix nor the name
    of an inherited property, or no segment at all: no request is issued
    and nothing is written to the response, neither status nor header nor
    body. *)
Lemma handle_unknown_prefix :
  match parts with
  | [] => True
  | first :: _ =>
      own DOMAIN_CONFIGS first = None /\ ~ In first Object_prototype
  end ->
  run = (Ok tt, fresh).
Proof.
  intros H; apply handle_unresolved; fold parts.
  destruct parts as [|first rest]; [exact I|].
  destruct H as [Hown Hproto]; unfold get; rewrite Hown.
  destruct (mem_str first Object_prototype) eqn:E; [|reflexivity].
  apply mem_str_In in E; contradiction.
Qed.

End Hosts.

(** The example of the specification. *)
Example handle_xx :
  run_handle path_URL origin_down latin1 (GET "/xx/foo") = (Ok tt, fresh).
Proof. reflexivity. Qed.

(** C7 (the code departs from it): [DOMAIN_CONFIGS[prefix]] is truthy for
    the name of an inherited property.  [constructor] is no configured
    prefix, yet the inbound path [/constructor/foo] makes the proxy call
    [fetch], on a URL whose host is the text [undefined] and is none of the
    configured domains. *)
Theorem C7_inherited_prefix :
  own DOMAIN_CONFIGS (lit "constructor") = None
  /\ targets (run_handle path_URL origin_down latin1 (GET "/constructor/foo"))
     = [ lit "http://undefined/undefined/foo" ]
  /\ to_allowed_domain (lit "http://undefined/undefined/foo") = false.
Proof. repeat split; reflexivity. Qed.

(** ** C8: answers that are not HTML *)


Lemma same_name_trans (a b c : jsstring) :
  same_name a b = true -> same_name a c = same_name b c.
Proof.
  unfold same_name; intros E; apply str_eqb_eq in E; rewrite E; reflexivity.
Qed.

Lemma Headers_get_set (h : Headers) (k v name : jsstring) :
  Headers_get (Headers_set h k v) name
  = if same_name k name then Some v else Headers_get h name.
Proof.
  induction h as [|[k' v'] h IH]; [reflexivity|].
  cbn [Headers_set Headers_get].
  fold (same_name k' k); fold (same_name k' name).
  destruct (same_name k' k) eqn:E.
  - cbn [Headers_get]; fold (same_name k' name).
    rewrite (same_name_trans _ _ name E).
    destruct (same_name k name); reflexivity.
  - cbn [Headers_get]; fold (same_name k' name).
    rewrite IH.
    destruct (same_name k' name) eqn:E'; [|reflexivity].
    destruct (same_name k name) eqn:E''; [|reflexivity].
    unfold same_name in *.
    apply str_eqb_eq in E', E''.
    rewrite E', <- E'', str_eqb_refl in E; discriminate.
Qed.








Lemma rewrite_location_status (c : member DomainConfig)
    (response : FetchResponse) :
  resp_status (rewrite_location c response) = resp_status response
  /\ resp_body (rewrite_location c response) = resp_body response.
Proof.
  unfold rewrite_location.
  destruct (_ && _); [|split; reflexivity].
  destruct (Headers_get _ _) as [[|x l]|]; split; reflexivity.
Qed.

Lemma Headers_get_set_other (h : Headers) (k v name : jsstring) :
  same_name k name = false ->
  Headers_get (Headers_set h k v) name = Headers_get h name.
Proof. intros E; rewrite Headers_get_set, E; reflexivity. Qed.



Lemma rewrite_location_contentType (c : member DomainConfig)
    (response : FetchResponse) :
  contentType (rewrite_location c response) = contentType response.
Proof.
  unfold contentType, rewrite_location.
  destruct (_ && _); [|reflexivity].
  destruct (Headers_get _ (lit "location")) as [[|x l]|]; try reflexivity.
  cbn [resp_headers]; rewrite Headers_get_set_other; reflexivity.
Qed.



(** A redirect that is not HTML: the [location] relayed is the one the
    redirect step has written. *)
Example redirect_relayed :
  let response :=
    mkResponse 302 [(lit "location", lit "http://salafitalk.net/st/page2");
                    (lit "content-type", lit "image/png")] png in
  let answer :=
    res (snd (run_handle path_URL (origin_serves response) latin1
                (GET "/st/page1"))) in
  includes (lit "text/html") (contentType response) = false
  /\ forbidden (lit "location") = false
  /\ Headers_get (resp_headers response) (lit "location")
     = Some (lit "http://salafitalk.net/st/page2")
  /\ Headers_get (res_headers answer) (lit "location") = Some (lit "/st/page2")
  /\ Headers_get (res_headers answer) (lit "location")
     <> Headers_get (resp_headers response) (lit "location").
Proof.
  cbv zeta; do 4 (split; [reflexivity|]).
  vm_compute; discriminate.
Qed.

(** ** C9: errors *)

Lemma handle_catch_run (e : JSError) (w : World) :
  handle_catch e w
  = if valid_status (status_or_500 e)
    then (Ok tt,
          mkWorld (fetched w)
            (mkRes (status_or_500 e) (res_headers (res w))
               (Some (Text match err_message e with
                           | Some [] | None => lit "Proxy request failed"
                           | Some message => message
                           end))))
    else (Throw (ERR_HTTP_INVALID_STATUS_CODE (status_or_500 e)),
          mkWorld (fetched w)
            (mkRes (status_or_500 e) (res_headers (res w)) (sent (res w)))).
Proof.
  unfold handle_catch, mbind, res_status, res_send.
  cbn [res statusCode res_headers sent fetched].
  change (match err_status e with
          | Some 0%Z | None => 500%Z
          | Some code => code
          end) with (status_or_500 e).
  destruct (valid_status (status_or_500 e)); reflexivity.
Qed.





(** ** C10: HTML answers *)

Section Html.

Variable iconv_decode : list N -> option jsstring -> Result jsstring.

(** A body that decodes to the empty string is answered with status 500. *)
Lemma handleHtmlResponse_empty (response : FetchResponse)
    (domain : option jsstring) (w : World) :
  iconv_decode (resp_body response) (own domainToEncoding (interp domain))
    = Ok [] ->
  handleHtmlResponse iconv_decode response domain w
  = (Ok tt,
     mkWorld (fetched w)
       (mkRes 500 (res_headers (res w))
              (Some (Text (lit "Failed to decode text"))))).
Proof.
  intros H; unfold handleHtmlResponse, mbind at 1, lift; rewrite H.
  reflexivity.
Qed.

(** A body that decodes to a text that is not empty, which the rewriter
    accepts, is served rewritten, as UTF-8 and with the status set before;
    when that status is not one a response can be written with, the write
    throws after the content type has been set. *)
Lemma handleHtmlResponse_served (response : FetchResponse)
    (domain : option jsstring) (w : World) (text modifiedHtml : jsstring) :
  iconv_decode (resp_body response) (own domainToEncoding (interp domain))
    = Ok text ->
  text <> [] ->
  modifyHtml (new_HtmlModifier domain) text = Ok modifiedHtml ->
  handleHtmlResponse iconv_decode response domain w
  = if valid_status (statusCode (res w))
    then (Ok tt,
          mkWorld (fetched w)
            (mkRes (statusCode (res w))
                   (Headers_set (res_headers (res w)) (lit "Content-Type")
                      (lit "text/html; charset=utf-8"))
                   (Some (Text modifiedHtml))))
    else (Throw (ERR_HTTP_INVALID_STATUS_CODE (statusCode (res w))),
          mkWorld (fetched w)
            (mkRes (statusCode (res w))
                   (Headers_set (res_headers (res w)) (lit "Content-Type")
                      (lit "text/html; charset=utf-8"))
                   (sent (res w)))).
Proof.
  intros H Hne Hm; unfold handleHtmlResponse, mbind at 1, lift; rewrite H.
  destruct text as [|x text]; [congruence|].
  cbn [truthy negb]; unfold mbind at 1, lift; rewrite Hm.
  unfold mbind, res_setHeader, res_send.
  cbn [res statusCode res_headers sent fetched].
  destruct (valid_status (statusCode (res w))); reflexivity.
Qed.

(** A text the rewriter throws on: the error leaves [handleHtmlResponse]. *)
Lemma handleHtmlResponse_throws (response : FetchResponse)
    (domain : option jsstring) (w : World) (text : jsstring) (e : JSError) :
  iconv_decode (resp_body response) (own domainToEncoding (interp domain))
    = Ok text ->
  text <> [] ->
  modifyHtml (new_HtmlModifier domain) text = Throw e ->
  handleHtmlResponse iconv_decode response domain w = (Throw e, w).
Proof.
  intros H Hne Hm; unfold handleHtmlResponse, mbind at 1, lift; rewrite H.
  destruct text as [|x text]; [congruence|].
  cbn [truthy negb]; unfold mbind at 1, lift; rewrite Hm.
  reflexivity.
Qed.

End Html.

Example handle_empty_page :
  res (snd (run_handle path_URL (origin_serves (page 200 [])) latin1
              (GET "/st/")))
  = mkRes 500 [] (Some (Text (lit "Failed to decode text"))).
Proof. reflexivity. Qed.

Example handle_page :
  res (snd (run_handle path_URL (origin_serves (page 200 (anchor "a.html")))
              latin1 (GET "/st/")))
  = mkRes 200 [(lit "Content-Type", lit "text/html; charset=utf-8")]
      (Some (Text (anchor "/st/a.html"))).
Proof. reflexivity. Qed.

(** C10 (the code departs from it): a text that is not empty skips the
    branch of the failed decoding, but it is not always rewritten and
    served.  The dots of the domains stand for any character in the pattern
    for absolute URLs, so a link to the host [salafitalk-net] matches; the
    callback then reads [prefix] on [DOMAIN_TO_CONFIG] at a key that is not
    there, the error is caught by [handle], and the page is answered with
    status 500 and the message of the error. *)
Theorem C10_page_not_served :
  let html := anchor "http://salafitalk-net/st/x" in
  html <> []
  /\ modifyHtml modifier_st html
     = Throw (TypeError "Cannot read properties of undefined (reading 'prefix')")
  /\ res (snd (run_handle path_URL (origin_serves (page 200 html)) latin1
                 (GET "/st/")))
     = mkRes 500 []
         (Some (Text (lit "Cannot read properties of undefined (reading 'prefix')"))).
Proof.
  cbv zeta; split; [vm_compute; discriminate|].
  split; reflexivity.
Qed.

(** * Further properties *)

(** ** Objects and the registry *)

Lemma own_set {A} (o : object A) (k k' : jsstring) (v : A) :
  own (set o k v) k' = if str_eqb k' k then Some v else own o k'.
Proof.
  induction o as [|[k0 v0] o IH]; cbn [set own].
  - reflexivity.
  - destruct (str_eqb k k0) eqn:E; cbn [own].
    + apply str_eqb_eq in E; subst k0.
      destruct (str_eqb k' k); reflexivity.
    + rewrite IH.
      destruct (str_eqb k' k0) eqn:E0; [|reflexivity].
      destruct (str_eqb k' k) eqn:E1; [|reflexivity].
      apply str_eqb_eq in E0, E1; subst.
      rewrite str_eqb_refl in E; discriminate.
Qed.

Lemma str_eqb_neq (a b : jsstring) : a <> b -> str_eqb a b = false.
Proof.
  intros H; destruct (str_eqb a b) eqn:E; [|reflexivity].
  apply str_eqb_eq in E; contradiction.
Qed.

Lemma index_by_domain_snoc (l : list DomainConfig) (x : DomainConfig) :
  index_by_domain (l ++ [x]) = set (index_by_domain l) (domain x) x.
Proof. unfold index_by_domain; rewrite fold_left_app; reflexivity. Qed.

(** X1.  The reverse mapping is built by assigning [acc[config.domain]] for
    each configuration in turn.  On a list whose domains are distinct,
    every configuration is found under its own domain, and whatever is
    found under a domain is a configuration of the list with that domain;
    [DOMAIN_TO_CONFIG] is that mapping for the registry, whose domains are
    distinct. *)
Theorem X1_reverse_mapping (configs : list DomainConfig) :
  NoDup (map domain configs) ->
  (forall c, In c configs -> own (index_by_domain configs) (domain c) = Some c)
  /\ (forall d c, own (index_by_domain configs) d = Some c ->
                  In c configs /\ domain c = d)
  /\ DOMAIN_TO_CONFIG = index_by_domain (values DOMAIN_CONFIGS)
  /\ NoDup (map domain (values DOMAIN_CONFIGS)).
Proof.
  intros Hnd; split; [|split; [|split]].
  - induction configs as [|x l IH] using rev_ind; intros c Hc; [destruct Hc|].
    rewrite map_app in Hnd; cbn [map] in Hnd.
    rewrite index_by_domain_snoc, own_set.
    apply in_app_or in Hc; destruct Hc as [Hc|[<-|[]]].
    + assert (Hne : domain c <> domain x).
      { intros E; apply NoDup_remove_2 in Hnd.
        apply Hnd; rewrite app_nil_r, <- E; apply in_map; exact Hc. }
      rewrite (str_eqb_neq Hne).
      apply IH; [|exact Hc].
      apply NoDup_remove_1 in Hnd; rewrite app_nil_r in Hnd; exact Hnd.
    + rewrite str_eqb_refl; reflexivity.
  - clear Hnd; induction configs as [|x l IH] using rev_ind; intros d c H.
    + discriminate.
    + rewrite index_by_domain_snoc, own_set in H.
      destruct (str_eqb d (domain x)) eqn:E.
      * apply str_eqb_eq in E; injection H as <-.
        split; [apply in_or_app; right; left; reflexivity | auto].
      * destruct (IH d c H) as [Hin Hd].
        split; [apply in_or_app; left; exact Hin | exact Hd].
  - reflexivity.
  - cbn; repeat constructor; cbn; intuition discriminate.
Qed.

Lemma X1_reverse_mapping_witness :
  own DOMAIN_TO_CONFIG (lit "sahihmuslim.com") = Some config_sm.
Proof.
  destruct (@X1_reverse_mapping (values DOMAIN_CONFIGS)) as (H & _ & E & _).
  - cbn; repeat constructor; cbn; intuition discriminate.
  - rewrite E; apply (H config_sm); cbn; auto.
Defined.

(** ** The charset tag *)

Lemma startsWith_split (p s : jsstring) :
  startsWith p s = true -> s = p ++ skipn (List.length p) s.
Proof.
  revert s; induction p as [|x p IH]; intros s H; [reflexivity|].
  destruct s as [|y s]; [discriminate|].
  cbn [startsWith] in H; apply andb_true_iff in H; destruct H as [E H].
  apply char_eqb_eq in E; subst y.
  cbn [List.length skipn app]; f_equal; apply IH; exact H.
Qed.

Lemma includes_cons (p : jsstring) (c : char) (s : jsstring) :
  includes p (c :: s) = startsWith p (c :: s) || includes p s.
Proof. reflexivity. Qed.

Lemma includes_app (p pre post : jsstring) :
  includes p (pre ++ p ++ post) = true.
Proof.
  induction pre as [|c pre IH].
  - cbn [app]; destruct (p ++ post) eqn:E; cbn [includes];
      rewrite <- E, startsWith_app; reflexivity.
  - cbn [app]; rewrite includes_cons, IH; apply orb_true_r.
Qed.

Lemma includes_false (p s : jsstring) :
  includes p s = false -> startsWith p s = false.
Proof.
  destruct s; cbn [includes]; intros H;
    apply orb_false_iff in H; apply H.
Qed.

(** [replace] with a string pattern: nothing changes without an
    occurrence, and otherwise one occurrence is replaced. *)
Lemma replace_str_cases (p r s : jsstring) :
  (includes p s = false /\ replace_str p r s = s)
  \/ exists pre post, s = pre ++ p ++ post
                      /\ replace_str p r s = pre ++ r ++ post.
Proof.
  induction s as [|c s IH].
  - destruct p as [|x p].
    + right; exists [], []; split; reflexivity.
    + left; split; reflexivity.
  - cbn [replace_str]; rewrite includes_cons.
    destruct (startsWith p (c :: s)) eqn:E.
    + right; exists [], (skipn (List.length p) (c :: s)).
      split; [apply startsWith_split; exact E | reflexivity].
    + destruct IH as [[Hn Hr]|(pre & post & Hs & Hr)].
      * left; rewrite Hn, Hr; split; reflexivity.
      * right; exists (c :: pre), post; rewrite Hs at 1; rewrite Hr.
        split; reflexivity.
Qed.

Lemma startsWith_shorter (p s t : jsstring) :
  List.length p <= List.length s ->
  startsWith p (s ++ t) = startsWith p s.
Proof.
  revert s; induction p as [|x p IH]; intros s H; [reflexivity|].
  destruct s as [|y s]; cbn [List.length] in H; [lia|].
  cbn [app startsWith]; rewrite IH by lia; reflexivity.
Qed.

(** The closing head tag does not overlap itself: an occurrence that
    begins before another one lies before it altogether. *)
Lemma head_close_apart (x post : jsstring) :
  x <> [] ->
  startsWith HEAD_CLOSE (x ++ HEAD_CLOSE ++ post) = startsWith HEAD_CLOSE x.
Proof.
  intros Hx.
  destruct (Nat.le_gt_cases (List.length HEAD_CLOSE) (List.length x)) as [H|H].
  - apply startsWith_shorter; exact H.
  - destruct x as [|x1 [|x2 [|x3 [|x4 [|x5 [|x6 [|x7 x]]]]]]];
      try congruence; try (cbn in H; lia);
      unfold HEAD_CLOSE; cbn;
      repeat (rewrite ?andb_false_r; cbn); reflexivity.
Qed.

Lemma replace_str_eq (p r s : jsstring) :
  replace_str p r s
  = if startsWith p s then r ++ skipn (List.length p) s
    else match s with
         | [] => []
         | c :: s' => c :: replace_str p r s'
         end.
Proof. destruct s; reflexivity. Qed.

Lemma replace_head_close (r pre post : jsstring) :
  includes HEAD_CLOSE pre = false ->
  replace_str HEAD_CLOSE r (pre ++ HEAD_CLOSE ++ post) = pre ++ r ++ post.
Proof.
  induction pre as [|c pre IH]; intros H.
  - cbn [app]; rewrite replace_str_eq, startsWith_app.
    rewrite skipn_app, skipn_all, Nat.sub_diag; reflexivity.
  - rewrite includes_cons in H; apply orb_false_iff in H; destruct H as [H1 H2].
    rewrite replace_str_eq, head_close_apart, H1 by discriminate.
    cbn [app]; rewrite IH by exact H2; reflexivity.
Qed.

(** X2.  Inserting the charset tag twice is inserting it once. *)
Theorem X2_add_meta_idempotent (html : jsstring) :
  add_meta (add_meta html) = add_meta html.
Proof.
  assert (Hcases : add_meta html = html
                   \/ includes META_PROBE (add_meta html) = true).
  { unfold add_meta; destruct (includes META_PROBE html) eqn:E; cbn [negb];
      [left; reflexivity|].
    destruct (replace_str_cases HEAD_CLOSE META_TAG html)
      as [[_ ->]|(pre & post & _ & ->)]; [left; reflexivity|].
    right.
    change META_TAG
      with (META_PROBE ++ lit ">" ++ [NEWLINE] ++ lit "</head>").
    rewrite <- !app_assoc; apply includes_app. }
  destruct Hcases as [H|H].
  - rewrite !H; reflexivity.
  - unfold add_meta at 1; rewrite H; reflexivity.
Qed.

(** X3.  The charset tag goes right before the first closing head tag of a
    page that does not have it yet; a page that has it, or that has no
    closing head tag, is left as it is. *)
Theorem X3_add_meta_position (html : jsstring) :
  (includes META_PROBE html = true -> add_meta html = html)
  /\ (includes HEAD_CLOSE html = false -> add_meta html = html)
  /\ (forall pre post,
        html = pre ++ HEAD_CLOSE ++ post ->
        includes HEAD_CLOSE pre = false ->
        includes META_PROBE html = false ->
        add_meta html
        = pre ++ META_PROBE ++ lit ">" ++ [NEWLINE] ++ HEAD_CLOSE ++ post).
Proof.
  split; [|split].
  - intros H; unfold add_meta; rewrite H; reflexivity.
  - intros H; unfold add_meta; destruct (negb _); [|reflexivity].
    destruct (replace_str_cases HEAD_CLOSE META_TAG html)
      as [[_ Hr]|(pre & post & Hs & _)]; [exact Hr|].
    rewrite Hs, includes_app in H; discriminate.
  - intros pre post -> Hpre Hprobe; unfold add_meta; rewrite Hprobe.
    cbn [negb]; rewrite replace_head_close by exact Hpre.
    unfold META_TAG, HEAD_CLOSE; rewrite <- !app_assoc; reflexivity.
Qed.

Lemma X3_add_meta_position_witness :
  add_meta (lit "<head><title>t</title></head><body></head></body>")
  = lit "<head><title>t</title>" ++ META_PROBE ++ lit ">" ++ [NEWLINE]
      ++ HEAD_CLOSE ++ lit "<body></head></body>".
Proof.
  apply (proj2 (proj2 (X3_add_meta_position
           (lit "<head><title>t</title></head><body></head></body>")))
           (lit "<head><title>t</title>") (lit "<body></head></body>"));
    reflexivity.
Defined.

(** ** The errors of the rewriter *)

Section ReplaceErrors.

Variable r : regex.
Variable f : captures -> Result jsstring.
Variable e0 : JSError.
Hypothesis f_throws : forall caps, (exists out, f caps = Ok out) \/ f caps = Throw e0.

Lemma replace_go_throws (s : jsstring) :
  forall pos skip,
    (exists t, replace_go r f pos skip s = Ok t)
    \/ replace_go r f pos skip s = Throw e0.
Proof.
  induction s as [|c s IH]; intros pos skip.
  - destruct skip; cbn [replace_go]; [|left; eexists; reflexivity].
    destruct (exec r pos []) as [[len caps]|]; [|left; eexists; reflexivity].
    destruct (f_throws caps) as [[out ->]| ->];
      [left; eexists; reflexivity | right; reflexivity].
  - destruct skip as [|n]; cbn [replace_go]; [|apply IH].
    destruct (exec r pos (c :: s)) as [[len caps]|].
    + destruct (f_throws caps) as [[out ->]| ->]; [|right; reflexivity].
      cbn [bind]; destruct len as [|n];
        [destruct (IH (S pos) 0) as [[t ->]| ->]
        |destruct (IH (S pos) n) as [[t ->]| ->]];
        (left; eexists; reflexivity) || (right; reflexivity).
    + destruct (IH (S pos) 0) as [[t ->]| ->];
        (left; eexists; reflexivity) || (right; reflexivity).
Qed.

End ReplaceErrors.

(** A replacement by a template never throws. *)
Lemma replace_tpl_total (r : regex) (tpl : list repl_item) (s : jsstring) :
  exists t, replace_tpl r tpl s = Ok t.
Proof.
  unfold replace_tpl, replace_all; generalize 0 at 1; generalize 0.
  induction s as [|c s IH]; intros skip pos.
  - destruct skip; cbn [replace_go]; [|eexists; reflexivity].
    destruct (exec r pos []) as [[len caps]|]; eexists; reflexivity.
  - destruct skip as [|n]; cbn [replace_go]; [|apply IH].
    destruct (exec r pos (c :: s)) as [[[|len] caps]|]; cbn [bind].
    + destruct (IH 0 (S pos)) as [t ->]; eexists; reflexivity.
    + destruct (IH len (S pos)) as [t ->]; eexists; reflexivity.
    + destruct (IH 0 (S pos)) as [t ->]; eexists; reflexivity.
Qed.

Lemma absolute_fn_throws (caps : captures) :
  (exists out, absolute_fn caps = Ok out) \/ absolute_fn caps = Throw no_prefix.
Proof.
  unfold absolute_fn; destruct (get _ _);
    [left; eexists; reflexivity | right; reflexivity].
Qed.

(** X4.  For a configured site the rewriter either returns a page or
    throws the error of the lookup [DOMAIN_TO_CONFIG[domain].prefix] in the
    rule for absolute URLs, and it throws exactly when that rule does: the
    three rules that follow never throw. *)
Theorem X4_modifyHtml_errors (site : DomainConfig) (html : jsstring) :
  In site (values DOMAIN_CONFIGS) ->
  let this := new_HtmlModifier (Some (domain site)) in
  ((exists t, modifyHtml this html = Ok t)
   \/ modifyHtml this html = Throw no_prefix)
  /\ (forall e, modifyHtml this html = Throw e
                <-> replace_all absolute_re absolute_fn (add_meta html) = Throw e).
Proof.
  intros Hin this.
  assert (Hthis : this_config this = Ok (Own site)).
  { unfold values, DOMAIN_CONFIGS in Hin; cbn [map snd In] in Hin.
    destruct Hin as [<-|[<-|[<-|[]]]]; reflexivity. }
  unfold modifyHtml; rewrite Hthis.
  destruct (@replace_go_throws absolute_re absolute_fn no_prefix
              absolute_fn_throws (add_meta html) 0 0) as [[h1 H1]|H1];
    fold (replace_all absolute_re absolute_fn (add_meta html)) in H1;
    rewrite H1; cbn [bind].
  - destruct (replace_tpl_total (root_prefixed_re (Own site))
                (prefix_tpl (Own site)) h1) as [h2 ->]; cbn [bind].
    destruct (replace_tpl_total (root_other_re (Own site))
                (prefix_tpl (Own site)) h2) as [h3 ->]; cbn [bind].
    destruct (replace_tpl_total relative_re (relative_tpl (Own site)) h3)
      as [h4 H4]; rewrite H4.
    split; [left; eexists; reflexivity|].
    intros e; split; discriminate.
  - split; [right; reflexivity|].
    intros e; split; auto.
Qed.

Lemma X4_modifyHtml_errors_witness :
  modifyHtml modifier_sm (anchor "http://salafitalk_com/st/") = Throw no_prefix.
Proof.
  destruct (@X4_modifyHtml_errors config_sm (anchor "http://salafitalk_com/st/"))
    as [_ H]; [cbn; auto|].
  apply H; reflexivity.
Defined.

(** ** Where the rules cannot match *)

Lemma In_skipn {A} (x : A) (n : nat) (l : list A) :
  In x (skipn n l) -> In x l.
Proof.
  intros H; rewrite <- (firstn_skipn n l); apply in_or_app; right; exact H.
Qed.

Lemma startsWith_In (c : char) (p s : jsstring) :
  startsWith (c :: p) s = true -> In c s.
Proof.
  destruct s as [|y s]; [discriminate|].
  cbn [startsWith]; intros H; apply andb_true_iff in H; destruct H as [E _].
  apply char_eqb_eq in E; subst; left; reflexivity.
Qed.

Lemma includes_without (c : char) (p s : jsstring) :
  ~ In c s -> includes (c :: p) s = false.
Proof.
  induction s as [|y s IH]; intros H; [reflexivity|].
  rewrite includes_cons, IH by (intros F; apply H; right; exact F).
  destruct (startsWith (c :: p) (y :: s)) eqn:E; [|reflexivity].
  apply startsWith_In in E; contradiction.
Qed.

Lemma add_meta_without_head (html : jsstring) :
  includes HEAD_CLOSE html = false -> add_meta html = html.
Proof.
  intros H; unfold add_meta; destruct (negb _); [|reflexivity].
  destruct (replace_str_cases HEAD_CLOSE META_TAG html)
    as [[_ Hr]|(pre & post & Hs & _)]; [exact Hr|].
  rewrite Hs, includes_app in H; discriminate.
Qed.

(** Every rule begins with the attribute name: no match where the text
    begins otherwise. *)
Lemma rmatch_attr_start (R : Type) (T : regex) (pos : nat) (s : jsstring)
    (caps : captures) (k : nat -> jsstring -> captures -> option R) :
  startsWith (lit "href") s = false ->
  startsWith (lit "src") s = false ->
  rmatch (RSeq attr_group T) pos s caps k = None.
Proof.
  intros Hh Hs; unfold attr_group, rtext; cbn [rmatch].
  rewrite !rmatch_literal by reflexivity.
  rewrite Hh, Hs; reflexivity.
Qed.

(** Every rule goes on with an equals sign: no match in a text without. *)
Lemma rmatch_attr_equals (R : Type) (T : regex) (pos : nat) (s : jsstring)
    (caps : captures) (k : nat -> jsstring -> captures -> option R) :
  ~ In 61%N s ->
  rmatch (RSeq attr_group (RSeq (rtext "=") T)) pos s caps k = None.
Proof.
  intros H; unfold attr_group, rtext; cbn [rmatch].
  assert (He : forall n, startsWith (lit "=") (skipn n s) = false).
  { intros n; destruct (startsWith (lit "=") (skipn n s)) eqn:E; [|reflexivity].
    apply startsWith_In, In_skipn in E; contradiction. }
  rewrite !rmatch_literal by reflexivity.
  cbn [List.length lit map list_ascii_of_string].
  destruct (startsWith _ s); destruct (startsWith _ s);
    rewrite ?He; reflexivity.
Qed.

Section Unmatched.

Variable r : regex.
Variable f : captures -> Result jsstring.
Hypothesis r_floating : floating r = true.

(** A stretch of text where no match begins is kept as it is. *)
Lemma replace_all_keep_prefix (m rest : jsstring) :
  (forall n, n < List.length m -> exec r 0 (skipn n (m ++ rest)) = None) ->
  replace_all r f (m ++ rest) = t <- replace_all r f rest ;; Ok (m ++ t).
Proof.
  induction m as [|c m IH]; intros H.
  - cbn [app]; destruct (replace_all r f rest); reflexivity.
  - cbn [app]; rewrite replace_all_keep by
      (exact r_floating || (apply (H 0); cbn [List.length]; lia)).
    rewrite IH by (intros n Hn; apply (H (S n)); cbn [List.length]; lia).
    destruct (replace_all r f rest); reflexivity.
Qed.

Lemma replace_all_unmatched (s : jsstring) :
  (forall n, exec r 0 (skipn n s) = None) ->
  replace_all r f s = Ok s.
Proof.
  intros H.
  assert (Hnil : replace_all r f [] = Ok []).
  { pose proof (H (List.length s)) as E; rewrite skipn_all in E.
    unfold replace_all; cbn [replace_go]; rewrite E; reflexivity. }
  rewrite <- (app_nil_r s) at 1.
  rewrite replace_all_keep_prefix, Hnil; cbn [bind].
  - rewrite app_nil_r; reflexivity.
  - intros n _; rewrite app_nil_r; apply H.
Qed.

End Unmatched.

(** ** The rules for root-relative URLs *)

Lemma floating_root_prefixed (site : DomainConfig) :
  In site (values DOMAIN_CONFIGS) ->
  floating (root_prefixed_re (Own site)) = true.
Proof.
  unfold values, DOMAIN_CONFIGS; cbn [map snd In].
  intros [<-|[<-|[<-|[]]]]; reflexivity.
Qed.

Lemma floating_root_other (site : DomainConfig) :
  In site (values DOMAIN_CONFIGS) ->
  floating (root_other_re (Own site)) = true.
Proof.
  unfold values, DOMAIN_CONFIGS; cbn [map snd In].
  intros [<-|[<-|[<-|[]]]]; reflexivity.
Qed.

Lemma prefix_literal (site : DomainConfig) :
  In site (values DOMAIN_CONFIGS) ->
  mem_char 46%N (prefix site) = false /\ plain (prefix site)
  /\ startsWith (lit "/") (prefix site) = false.
Proof.
  unfold values, DOMAIN_CONFIGS; cbn [map snd In].
  intros [<-|[<-|[<-|[]]]]; (split; [reflexivity|split; [|reflexivity]]);
    repeat constructor.
Qed.

(** X6.  The rule for root-relative URLs under the path prefix of the
    site: the attribute, either quote, a slash, the path prefix and a slash
    are replaced by the attribute, a double quote and the proxy prefix
    between slashes.  For the site whose path prefix is empty the text
    replaced is the attribute followed by two slashes. *)
Theorem X6_root_prefixed_rule (site : DomainConfig) (a q rest : jsstring) :
  In site (values DOMAIN_CONFIGS) ->
  a = lit "href" \/ a = lit "src" ->
  q = [DQUOTE] \/ q = [SQUOTE] ->
  let rule := replace_tpl (root_prefixed_re (Own site)) (prefix_tpl (Own site)) in
  rule (a ++ lit "=" ++ q ++ lit "/" ++ pathPrefix site ++ lit "/" ++ rest)
  = t <- rule rest ;;
    Ok (a ++ lit "=" ++ [DQUOTE] ++ lit "/" ++ prefix site ++ lit "/" ++ t).
Proof.
  intros Hin Ha Hq rule; unfold rule, replace_tpl.
  pose proof (floating_root_prefixed Hin) as Hf.
  unfold values, DOMAIN_CONFIGS in Hin; cbn [map snd In] in Hin.
  destruct Hin as [<-|[<-|[<-|[]]]]; destruct Ha as [->| ->];
    destruct Hq as [->| ->];
    match goal with
    | |- replace_all ?r ?f (?a ++ ?e ++ ?q ++ ?l ++ ?p ++ ?l' ++ rest) = _ =>
        change (a ++ e ++ q ++ l ++ p ++ l' ++ rest)
          with ((a ++ e ++ q ++ l ++ p ++ l') ++ rest);
        erewrite (@replace_all_match r f Hf (a ++ e ++ q ++ l ++ p ++ l'));
          [ | vm_compute; discriminate | vm_compute; reflexivity ]
    end;
    cbn [bind];
    match goal with
    | |- context [replace_all ?r ?f rest] =>
        destruct (replace_all r f rest); reflexivity
    end.
Qed.

Lemma X6_root_prefixed_rule_witness :
  replace_tpl (root_prefixed_re (Own config_sc)) (prefix_tpl (Own config_sc))
    (lit "src='//cdn.example.org/a.js'")
  = Ok (lit "src=" ++ [DQUOTE] ++ lit "/sc/cdn.example.org/a.js'").
Proof.
  exact (@X6_root_prefixed_rule config_sc (lit "src") [SQUOTE]
           (lit "cdn.example.org/a.js'")
           (or_intror (or_intror (or_introl eq_refl)))
           (or_intror eq_refl) (or_intror eq_refl)).
Defined.

(** X7.  The rule for the other root-relative URLs: the attribute, either
    quote and a slash are replaced by the attribute, a double quote and the
    proxy prefix between slashes, unless the text after the slash begins
    with the proxy prefix, in which case they are kept; the test is on the
    letters of the prefix only, so a path such as [/static] is kept under
    the prefix [st]. *)
Theorem X7_root_other_rule (site : DomainConfig) (a rest : jsstring) (q : char) :
  In site (values DOMAIN_CONFIGS) ->
  a = lit "href" \/ a = lit "src" ->
  mem_char q [DQUOTE; SQUOTE] = true ->
  let rule := replace_tpl (root_other_re (Own site)) (prefix_tpl (Own site)) in
  (startsWith (prefix site) rest = false ->
   rule (a ++ lit "=" ++ q :: lit "/" ++ rest)
   = t <- rule rest ;;
     Ok (a ++ lit "=" ++ [DQUOTE] ++ lit "/" ++ prefix site ++ lit "/" ++ t))
  /\ (startsWith (prefix site) rest = true ->
      rule (a ++ lit "=" ++ q :: lit "/" ++ rest)
      = t <- rule rest ;; Ok (a ++ lit "=" ++ q :: lit "/" ++ t)).
Proof.
  intros Hin Ha Hq rule; unfold rule, replace_tpl.
  pose proof (floating_root_other Hin) as Hf.
  destruct (prefix_literal Hin) as (Hdot & _ & _).
  assert (Hexec : exec (root_other_re (Own site)) 0
                    (a ++ lit "=" ++ q :: lit "/" ++ rest)
                  = if startsWith (prefix site) rest then None
                    else Some (List.length a + 3, [(1, a)])).
  { unfold exec.
    change (root_other_re (Own site))
      with (RSeq attr_group (RSeq (rtext "=") (RSeq quote
              (RSeq (rtext "/") (RNotAhead (rsource (prefix site))))))).
    rewrite (@rmatch_attr _ _ a q _ _ Ha Hq).
    cbn [rmatch]; unfold rtext; rewrite rmatch_literal by reflexivity.
    rewrite startsWith_app; cbn [rmatch].
    rewrite rmatch_literal by exact Hdot.
    cbn [List.length lit map list_ascii_of_string skipn app].
    destruct (startsWith (prefix site) rest); [reflexivity|].
    f_equal; f_equal; lia. }
  split; intros Hp; rewrite Hp in Hexec.
  - replace (a ++ lit "=" ++ q :: lit "/" ++ rest)
      with ((a ++ lit "=" ++ q :: lit "/") ++ rest)
      by (repeat (rewrite <- app_assoc || rewrite <- app_comm_cons);
          reflexivity).
    rewrite (@replace_all_match _ _ Hf (a ++ lit "=" ++ q :: lit "/") rest
               [(1, a)]).
    + cbn [bind].
      match goal with
      | |- context [replace_all ?r ?f rest] =>
          destruct (replace_all r f rest); [|reflexivity]
      end.
      cbn [bind]; f_equal; unfold expand, prefix_tpl.
      cbn [map expand_item capture Nat.eqb List.concat field interp].
      rewrite app_nil_r.
      repeat (rewrite <- app_assoc || rewrite <- app_comm_cons).
      reflexivity.
    + destruct Ha as [->| ->]; discriminate.
    + replace ((a ++ lit "=" ++ q :: lit "/") ++ rest)
        with (a ++ lit "=" ++ q :: lit "/" ++ rest)
        by (repeat (rewrite <- app_assoc || rewrite <- app_comm_cons);
            reflexivity).
      rewrite Hexec; f_equal; f_equal.
      rewrite !length_app; cbn [List.length lit map list_ascii_of_string].
      lia.
  - replace (a ++ lit "=" ++ q :: lit "/" ++ rest)
      with ((a ++ lit "=" ++ q :: lit "/") ++ rest)
      by (repeat (rewrite <- app_assoc || rewrite <- app_comm_cons);
          reflexivity).
    rewrite (@replace_all_keep_prefix _ _ Hf).
    + match goal with
      | |- context [replace_all ?r ?f rest] =>
          destruct (replace_all r f rest); [|reflexivity]
      end.
      cbn [bind]; f_equal.
      repeat (rewrite <- app_assoc || rewrite <- app_comm_cons).
      reflexivity.
    + intros n Hn.
      replace ((a ++ lit "=" ++ q :: lit "/") ++ rest)
        with (a ++ lit "=" ++ q :: lit "/" ++ rest)
        by (repeat (rewrite <- app_assoc || rewrite <- app_comm_cons);
            reflexivity).
      destruct n as [|n]; [exact Hexec|].
      assert (Hq' : q = DQUOTE \/ q = SQUOTE).
      { cbn [mem_char] in Hq; rewrite orb_false_r in Hq.
        apply orb_true_iff in Hq; destruct Hq as [E|E];
          apply char_eqb_eq in E; auto. }
      unfold exec.
      change (root_other_re (Own site))
        with (RSeq attr_group (RSeq (rtext "=") (RSeq quote
                (RSeq (rtext "/") (RNotAhead (rsource (prefix site))))))).
      destruct Ha as [->| ->]; destruct Hq' as [->| ->];
        cbn [List.length app lit map list_ascii_of_string] in Hn;
        do 7 (try (destruct n as [|n]; [apply rmatch_attr_start; reflexivity|]));
        cbn in Hn; lia.
Qed.

Lemma X7_root_other_rule_witness :
  replace_tpl (root_other_re (Own config_st)) (prefix_tpl (Own config_st))
    (lit "href='/static/a.css' src='/img/b.png'")
  = Ok (lit "href='/static/a.css' src=" ++ [DQUOTE] ++ lit "/st/img/b.png'").
Proof.
  destruct (@X7_root_other_rule config_st (lit "href")
              (lit "static/a.css' src='/img/b.png'") SQUOTE)
    as [_ H]; [cbn; auto | auto | reflexivity |].
  exact (H eq_refl).
Defined.

(** ** The rewriter on a relative link *)

Lemma quote_cases (q : char) :
  mem_char q [DQUOTE; SQUOTE] = true -> q = DQUOTE \/ q = SQUOTE.
Proof.
  cbn [mem_char]; rewrite orb_false_r; intros H.
  apply orb_true_iff in H; destruct H as [E|E]; apply char_eqb_eq in E; auto.
Qed.

(** In an attribute whose value has no equals sign, a rule matches at the
    attribute or nowhere; it does not match at the attribute when what it
    asks for after the opening quote is not there. *)
Lemma attribute_unmatched (T : regex) (a v : jsstring) (q q' : char) :
  a = lit "href" \/ a = lit "src" ->
  mem_char q [DQUOTE; SQUOTE] = true ->
  mem_char q' [DQUOTE; SQUOTE] = true ->
  ~ In 61%N v ->
  (forall pos caps k,
     rmatch T pos (v ++ [q']) caps k = (None : option (nat * captures))) ->
  forall n,
    exec (RSeq attr_group (RSeq (rtext "=") (RSeq quote T))) 0
      (skipn n (a ++ lit "=" ++ q :: v ++ [q'])) = None.
Proof.
  intros Ha Hq Hq' Hv HT n; unfold exec.
  destruct n as [|n].
  - cbn [skipn]; rewrite (@rmatch_attr _ T a q _ _ Ha Hq); apply HT.
  - assert (Htail : forall m,
              rmatch (RSeq attr_group (RSeq (rtext "=") (RSeq quote T))) 0
                (skipn m (v ++ [q'])) []
                (fun pos1 _ caps1 => Some (pos1 - 0, caps1)) = None).
    { intros m; apply rmatch_attr_equals; intros F.
      apply In_skipn, in_app_or in F; destruct F as [F|[F|[]]]; [auto|].
      destruct (quote_cases _ Hq') as [E|E]; rewrite E in F; discriminate. }
    destruct (quote_cases _ Hq) as [->| ->]; destruct Ha as [->| ->];
      cbn [app lit map list_ascii_of_string];
      repeat (destruct n as [|n]; [apply rmatch_attr_start; reflexivity|]);
      apply Htail.
Qed.

(** X8.  On an attribute [href] or [src] whose value is a relative URL, the
    whole rewriter does what its last rule does: the value comes out behind
    the proxy prefix of the site, between double quotes.  The value here is
    any text without quote, equals sign or angle bracket that begins
    neither with a slash nor with [http]. *)
Theorem X8_relative_link (site : DomainConfig) (a v : jsstring) (q q' : char) :
  In site (values DOMAIN_CONFIGS) ->
  a = lit "href" \/ a = lit "src" ->
  mem_char q [DQUOTE; SQUOTE] = true ->
  mem_char q' [DQUOTE; SQUOTE] = true ->
  plain v -> ~ In 61%N v -> ~ In 60%N v ->
  startsWith (lit "/") v = false ->
  startsWith (lit "http") v = false ->
  modifyHtml (new_HtmlModifier (Some (domain site)))
    (a ++ lit "=" ++ q :: v ++ [q'])
  = Ok (a ++ lit "=" ++ DQUOTE :: lit "/" ++ prefix site ++ lit "/" ++ v
          ++ [DQUOTE]).
Proof.
  intros Hin Ha Hq Hq' Hplain Heq Hlt Hslash Hhttp.
  set (html := a ++ lit "=" ++ q :: v ++ [q']).
  assert (Hthis : this_config (new_HtmlModifier (Some (domain site)))
                  = Ok (Own site)).
  { unfold values, DOMAIN_CONFIGS in Hin; cbn [map snd In] in Hin.
    destruct Hin as [<-|[<-|[<-|[]]]]; reflexivity. }
  assert (Hmeta : add_meta html = html).
  { apply add_meta_without_head, includes_without; unfold html; intros F.
    apply in_app_or in F; destruct F as [F|F];
      [destruct Ha as [->| ->]; cbn in F; intuition discriminate|].
    destruct F as [F|[F|F]]; [discriminate| |].
    - destruct (quote_cases _ Hq) as [E|E]; rewrite E in F; discriminate.
    - apply in_app_or in F; destruct F as [F|[F|[]]]; [auto|].
      destruct (quote_cases _ Hq') as [E|E]; rewrite E in F; discriminate. }
  assert (Hs : forall p, plain p -> startsWith p (v ++ [q']) = startsWith p v).
  { intros p Hp; apply startsWith_plain; assumption. }
  assert (H1 : replace_all absolute_re absolute_fn html = Ok html).
  { apply replace_all_unmatched; [reflexivity|].
    unfold absolute_re; cbn [rseq]; apply attribute_unmatched; try assumption.
    intros pos caps k; cbn [rmatch]; unfold rtext at 1.
    rewrite rmatch_literal, Hs, Hhttp by first [reflexivity | repeat constructor].
    reflexivity. }
  assert (H2 : replace_tpl (root_prefixed_re (Own site)) (prefix_tpl (Own site))
                 html = Ok html).
  { apply replace_all_unmatched; [apply floating_root_prefixed; exact Hin|].
    unfold root_prefixed_re; cbn [rseq]; apply attribute_unmatched;
      try assumption.
    intros pos caps k; cbn [rmatch]; unfold rtext at 1.
    rewrite rmatch_literal, Hs, Hslash by first [reflexivity | repeat constructor].
    reflexivity. }
  assert (H3 : replace_tpl (root_other_re (Own site)) (prefix_tpl (Own site))
                 html = Ok html).
  { apply replace_all_unmatched; [apply floating_root_other; exact Hin|].
    unfold root_other_re; cbn [rseq]; apply attribute_unmatched;
      try assumption.
    intros pos caps k; cbn [rmatch]; unfold rtext at 1.
    rewrite rmatch_literal, Hs, Hslash by first [reflexivity | repeat constructor].
    reflexivity. }
  unfold modifyHtml; rewrite Hmeta, H1; cbn [bind].
  rewrite Hthis; cbn [bind]; rewrite H2; cbn [bind]; rewrite H3; cbn [bind].
  unfold html; rewrite relative_rule; try assumption.
  - change (replace_tpl relative_re (relative_tpl (Own site)) []) with (Ok (@nil char)).
    cbn [bind field interp]; rewrite app_nil_r; reflexivity.
  - change (lit "//") with (lit "/" ++ lit "/").
    apply startsWith_longer; exact Hslash.
Qed.

Lemma X8_relative_link_witness :
  modifyHtml modifier_sm (lit "src='img/logo.gif'")
  = Ok (lit "src=" ++ [DQUOTE] ++ lit "/sm/img/logo.gif" ++ [DQUOTE]).
Proof.
  apply (@X8_relative_link config_sm (lit "src") (lit "img/logo.gif")
           SQUOTE SQUOTE);
    try reflexivity; try (cbn; auto; fail);
    try (repeat constructor; fail);
    try (cbn; intuition discriminate).
Defined.

(** ** The headers of the outbound request *)

Lemma forwardable_name (entry : jsstring * HeaderValue) :
  unforwardable_name (fst entry) = true -> forwardable entry = false.
Proof.
  destruct entry as [k v]; unfold unforwardable_name, forwardable; cbn [fst].
  intros H; apply orb_true_iff in H; destruct H as [H|H];
    [apply orb_true_iff in H; destruct H as [H|H]|]; rewrite H;
    cbn [negb]; rewrite ?andb_false_r; reflexivity.
Qed.

Lemma own_forward_loop (entries : object HeaderValue)
    (acc : object (option jsstring)) (k : jsstring) :
  own (fold_left
         (fun headers entry =>
            if forwardable entry then
              set headers (fst entry)
                match snd entry with
                | HString s => Some s
                | HArray l => nth_error l 0
                end
            else headers)
         entries acc) k
  = match last_forwardable entries k with
    | Some x => Some x
    | None => own acc k
    end.
Proof.
  revert acc; induction entries as [|entry rest IH]; intros acc; [reflexivity|].
  cbn [fold_left last_forwardable]; rewrite IH.
  destruct (last_forwardable rest k); [reflexivity|].
  destruct (forwardable entry); [|rewrite andb_false_r; reflexivity].
  rewrite own_set, andb_true_r.
  destruct (str_eqb k (fst entry)); reflexivity.
Qed.

Lemma last_forwardable_absent (entries : object HeaderValue) (k : jsstring) :
  ~ In k (map fst entries) -> last_forwardable entries k = None.
Proof.
  induction entries as [|entry rest IH]; intros H; [reflexivity|].
  cbn [last_forwardable]; rewrite IH by (intros F; apply H; right; exact F).
  rewrite str_eqb_neq; [reflexivity|].
  intros E; apply H; left; symmetry; exact E.
Qed.

Lemma last_forwardable_unique (entries : object HeaderValue) (k : jsstring)
    (value : HeaderValue) :
  NoDup (map fst entries) ->
  In (k, value) entries ->
  last_forwardable entries k
  = if forwardable (k, value) then Some (forwarded value) else None.
Proof.
  induction entries as [|entry rest IH]; intros Hnd Hin; [destruct Hin|].
  cbn [map] in Hnd; inversion Hnd as [|? ? Hk Hnd']; subst.
  cbn [last_forwardable]; destruct Hin as [->|Hin].
  - cbn [fst snd] in *; rewrite last_forwardable_absent by exact Hk.
    rewrite str_eqb_refl; reflexivity.
  - rewrite (IH Hnd' Hin).
    destruct (forwardable (k, value)); [reflexivity|].
    rewrite str_eqb_neq; [reflexivity|].
    intros E; apply Hk; rewrite <- E.
    change k with (fst (k, value)); apply in_map; exact Hin.
Qed.

Lemma last_forwardable_name (entries : object HeaderValue) (k : jsstring) :
  unforwardable_name k = true -> last_forwardable entries k = None.
Proof.
  intros H; induction entries as [|entry rest IH]; [reflexivity|].
  cbn [last_forwardable]; rewrite IH.
  destruct (str_eqb k (fst entry)) eqn:E; [|reflexivity].
  apply str_eqb_eq in E; rewrite forwardable_name by (rewrite <- E; exact H).
  reflexivity.
Qed.

Section ForwardedHeaders.

Variable new_URL : jsstring -> jsstring -> Result URL.
Variable req : Request.
Variable c : member DomainConfig.
Variable h : object (option jsstring).
Hypothesis built : getForwardableHeaders new_URL req c = Ok h.

(** The three assignments that follow the loop. *)
Lemma own_forwarded (k : jsstring) :
  exists referer,
    normalizeReferer new_URL req (req_header req "referer") c = Ok referer
    /\ own h k
       = if str_eqb k (lit "origin") && mem_str (req_method req) WRITING_METHODS
         then Some (Some (lit "http://" ++ interp (field domain c)))
         else if str_eqb k (lit "referer") then Some (Some referer)
         else if str_eqb k (lit "host") then Some (field domain c)
         else last_forwardable (req_headers req) k.
Proof.
  revert built; unfold getForwardableHeaders.
  destruct (normalizeReferer new_URL req (req_header req "referer") c)
    as [referer|e]; [|discriminate].
  cbn [bind]; intros H; exists referer; split; [reflexivity|].
  fold WRITING_METHODS in H.
  destruct (mem_str (req_method req) WRITING_METHODS);
    injection H as <-; rewrite ?andb_true_r, ?andb_false_r;
    rewrite !own_set, own_forward_loop; cbn [own];
    repeat match goal with
           | |- context [str_eqb k ?x] => destruct (str_eqb k x)
           end;
    try reflexivity;
    destruct (last_forwardable (req_headers req) k); reflexivity.
Qed.

End ForwardedHeaders.

(** X9.  The outbound headers never carry the inbound [host] or [referer]:
    [host] is the domain of the site and [referer] is the normalized
    referer; for POST, PUT and DELETE, [origin] is the origin of the site
    as well. *)
Theorem X9_headers_overridden
    (new_URL : jsstring -> jsstring -> Result URL) (req : Request)
    (c : member DomainConfig) (h : object (option jsstring)) :
  getForwardableHeaders new_URL req c = Ok h ->
  own h (lit "host") = Some (field domain c)
  /\ (exists referer,
        normalizeReferer new_URL req (req_header req "referer") c = Ok referer
        /\ own h (lit "referer") = Some (Some referer))
  /\ (mem_str (req_method req) WRITING_METHODS = true ->
      own h (lit "origin")
      = Some (Some (lit "http://" ++ interp (field domain c)))).
Proof.
  intros H; split; [|split].
  - destruct (@own_forwarded _ _ _ _ H (lit "host")) as (r & _ & ->); reflexivity.
  - destruct (@own_forwarded _ _ _ _ H (lit "referer")) as (r & Hr & ->).
    exists r; split; [exact Hr | reflexivity].
  - intros Hm; destruct (@own_forwarded _ _ _ _ H (lit "origin")) as (r & _ & ->).
    rewrite Hm; reflexivity.
Qed.

Lemma X9_headers_overridden_witness :
  own POST_form_headers (lit "host") = Some (Some (lit "salafitalk.net"))
  /\ own POST_form_headers (lit "origin")
     = Some (Some (lit "http://salafitalk.net")).
Proof.
  destruct (@X9_headers_overridden path_URL POST_form (Own config_st)
              POST_form_headers eq_refl) as (Hh & _ & Ho).
  split; [exact Hh | exact (Ho eq_refl)].
Defined.

(** X10.  No inbound header goes out under a name that is forbidden, that
    is [referer] or that begins with [sec-fetch], in whatever case it is
    written: such a key is absent from the outbound headers, apart from
    the keys [host] and [referer] the proxy sets itself. *)
Theorem X10_headers_dropped
    (new_URL : jsstring -> jsstring -> Result URL) (req : Request)
    (c : member DomainConfig) (h : object (option jsstring)) (k : jsstring) :
  getForwardableHeaders new_URL req c = Ok h ->
  unforwardable_name k = true ->
  k <> lit "host" -> k <> lit "referer" ->
  own h k = None.
Proof.
  intros H Hk Hhost Href.
  destruct (@own_forwarded _ _ _ _ H k) as (r & _ & ->).
  assert (Ho : str_eqb k (lit "origin") = false).
  { destruct (str_eqb k (lit "origin")) eqn:E; [|reflexivity].
    apply str_eqb_eq in E; subst k; discriminate. }
  rewrite Ho, (str_eqb_neq Href), (str_eqb_neq Hhost); cbn [andb].
  apply last_forwardable_name; exact Hk.
Qed.

Lemma X10_headers_dropped_witness :
  own POST_form_headers (lit "sec-fetch-mode") = None.
Proof.
  apply (@X10_headers_dropped path_URL POST_form (Own config_st)
           POST_form_headers (lit "sec-fetch-mode") eq_refl eq_refl);
    discriminate.
Defined.

(** X11.  Every other inbound header goes out unchanged when its value is
    not empty: for a key other than [host] and [referer], and other than
    [origin] when the method is POST, PUT or DELETE, the outbound value is
    the inbound string, or the first element of the inbound array, provided
    the entry passes the filter; a header with an empty value and a header
    that is not in the request are absent. *)
Theorem X11_headers_forwarded
    (new_URL : jsstring -> jsstring -> Result URL) (req : Request)
    (c : member DomainConfig) (h : object (option jsstring)) (k : jsstring) :
  getForwardableHeaders new_URL req c = Ok h ->
  NoDup (map fst (req_headers req)) ->
  k <> lit "host" -> k <> lit "referer" ->
  (k = lit "origin" -> mem_str (req_method req) WRITING_METHODS = false) ->
  (forall value, In (k, value) (req_headers req) ->
     own h k = if forwardable (k, value) then Some (forwarded value) else None)
  /\ (forall s, In (k, HString s) (req_headers req) ->
       unforwardable_name k = false -> s <> [] -> own h k = Some (Some s))
  /\ (In (k, HString []) (req_headers req) -> own h k = None)
  /\ (~ In k (map fst (req_headers req)) -> own h k = None).
Proof.
  intros H Hnd Hhost Href Horigin.
  destruct (@own_forwarded _ _ _ _ H k) as (r & _ & Hk).
  assert (Hown : own h k = last_forwardable (req_headers req) k).
  { rewrite Hk, (str_eqb_neq Href), (str_eqb_neq Hhost).
    destruct (str_eqb k (lit "origin")) eqn:E; [|reflexivity].
    apply str_eqb_eq in E; rewrite (Horigin E); reflexivity. }
  assert (Hin : forall value, In (k, value) (req_headers req) ->
            own h k = if forwardable (k, value) then Some (forwarded value)
                      else None).
  { intros value Hv; rewrite Hown; apply last_forwardable_unique; assumption. }
  split; [exact Hin|split; [|split]].
  - intros s Hs Hname Hne; rewrite (Hin _ Hs).
    unfold forwardable, unforwardable_name in *; cbn zeta in *.
    apply orb_false_iff in Hname; destruct Hname as [Hname H3].
    apply orb_false_iff in Hname; destruct Hname as [H1 H2].
    rewrite H1, H2, H3; destruct s; [congruence | reflexivity].
  - intros Hs; rewrite (Hin _ Hs); reflexivity.
  - intros Hn; rewrite Hown; apply last_forwardable_absent; exact Hn.
Qed.

Lemma X11_headers_forwarded_witness :
  own POST_form_headers (lit "cookie") = Some (Some (lit "a=1"))
  /\ own POST_form_headers (lit "accept-language") = None.
Proof.
  destruct (@X11_headers_forwarded path_URL POST_form (Own config_st)
              POST_form_headers (lit "cookie") eq_refl) as (_ & H & _);
    try discriminate.
  { cbn; repeat constructor; cbn; intuition discriminate. }
  destruct (@X11_headers_forwarded path_URL POST_form (Own config_st)
              POST_form_headers (lit "accept-language") eq_refl)
    as (_ & _ & H' & _); try discriminate.
  { cbn; repeat constructor; cbn; intuition discriminate. }
  split.
  - apply H; [cbn; auto | reflexivity | discriminate].
  - apply H'; cbn; auto.
Defined.

(** ** One request through [handle] *)

(** X12.  A referer the URL parser rejects stops the request before the
    origin is contacted: no request is issued, and the answer is the one of
    the catch clause for the error of the parser.  Were the status of that
    error one no response can be written with, the catch clause would
    throw instead, with nothing sent. *)
Theorem X12_unparsable_referer
    (new_URL : jsstring -> jsstring -> Result URL)
    (fetch : jsstring -> RequestInit -> Result FetchResponse)
    (iconv_decode : list N -> option jsstring -> Result jsstring)
    (req : Request) (first : jsstring) (rest : list jsstring)
    (c : member DomainConfig) (referer : jsstring) (e : JSError) :
  filter truthy (split SLASH (req_url req)) = first :: rest ->
  get DOMAIN_CONFIGS first = Some c ->
  req_header req "referer" = Some referer ->
  referer <> [] ->
  new_URL referer (lit "http://" ++ interp (req_header req "host")) = Throw e ->
  let out := run_handle new_URL fetch iconv_decode req in
  fetched (snd out) = []
  /\ (valid_status (status_or_500 e) = true ->
      out = (Ok tt, mkWorld [] (answer_to e)))
  /\ (valid_status (status_or_500 e) = false ->
      fst out = Throw (ERR_HTTP_INVALID_STATUS_CODE (status_or_500 e))
      /\ sent (res (snd out)) = None).
Proof.
  intros Hparts Hget Href Hne Hurl out.
  assert (Hout : out = handle_catch e fresh).
  { unfold out.
    rewrite (@handle_steps new_URL fetch iconv_decode req first rest c
               Hparts Hget).
    unfold getForwardableHeaders; rewrite Href.
    destruct referer as [|x referer]; [congruence|].
    unfold normalizeReferer; rewrite Hurl; reflexivity. }
  rewrite Hout, handle_catch_run.
  destruct (valid_status (status_or_500 e)).
  - split; [reflexivity|]; split; [reflexivity | discriminate].
  - split; [reflexivity|]; split; [discriminate|].
    intros _; split; reflexivity.
Qed.

(** X13.  A resolved request whose headers can be built makes exactly
    one call of [fetch], whatever the origin answers: with the method of
    the inbound request, with redirects left to the proxy, and with the
    inbound body unless the method is the text GET. *)
Theorem X13_one_request
    (new_URL : jsstring -> jsstring -> Result URL)
    (fetch : jsstring -> RequestInit -> Result FetchResponse)
    (iconv_decode : list N -> option jsstring -> Result jsstring)
    (req : Request) (first : jsstring) (rest : list jsstring)
    (c : member DomainConfig) (h : object (option jsstring)) :
  filter truthy (split SLASH (req_url req)) = first :: rest ->
  get DOMAIN_CONFIGS first = Some c ->
  getForwardableHeaders new_URL req c = Ok h ->
  fetched (snd (run_handle new_URL fetch iconv_decode req))
  = [ (origin_root c ++ join (lit "/") rest,
       mkInit (req_method req) h
         (if str_eqb (req_method req) (lit "GET") then None
          else Some (req_body req))
         (lit "manual")) ].
Proof.
  intros Hparts Hget Hh.
  rewrite (@handle_steps new_URL fetch iconv_decode req first rest c Hparts Hget).
  rewrite Hh; cbv zeta.
  destruct (fetch _ _) as [response|e].
  - rewrite (@quiet_try_catch _ _ (quiet_relay iconv_decode c _)
               quiet_handle_catch).
    reflexivity.
  - rewrite (quiet_handle_catch e); reflexivity.
Qed.

Lemma X13_one_request_witness :
  fetched (snd (run_handle path_URL origin_down latin1 POST_form))
  = [ (lit "http://salafitalk.net/st/post.cfm",
       mkInit (lit "POST") POST_form_headers (Some (lit "subject=salam"))
         (lit "manual")) ].
Proof.
  exact (@X13_one_request path_URL origin_down latin1 POST_form (lit "st")
           [lit "post.cfm"] (Own config_st) POST_form_headers
           eq_refl eq_refl eq_refl).
Defined.

(** X14.  An HTML answer that is decoded and rewritten is served with the
    status of the origin, the rewritten text, and one header only, the
    content type [text/html; charset=utf-8]: none of the headers of the
    origin is relayed on this path, not even the location of a redirect.
    Were the status of the origin one no response can be written with, the
    write would throw and the catch clause would answer with status 500. *)
Theorem X14_html_answer
    (new_URL : jsstring -> jsstring -> Result URL)
    (fetch : jsstring -> RequestInit -> Result FetchResponse)
    (iconv_decode : list N -> option jsstring -> Result jsstring)
    (req : Request) (first : jsstring) (rest : list jsstring)
    (c : member DomainConfig) (h : object (option jsstring))
    (response : FetchResponse) (text modifiedHtml : jsstring) :
  filter truthy (split SLASH (req_url req)) = first :: rest ->
  get DOMAIN_CONFIGS first = Some c ->
  getForwardableHeaders new_URL req c = Ok h ->
  fetch (origin_root c ++ join (lit "/") rest) (fetchOptions req h)
    = Ok response ->
  includes (lit "text/html") (contentType response) = true ->
  iconv_decode (resp_body response)
    (own domainToEncoding (interp (field domain c))) = Ok text ->
  text <> [] ->
  modifyHtml (new_HtmlModifier (field domain c)) text = Ok modifiedHtml ->
  let out := run_handle new_URL fetch iconv_decode req in
  (valid_status (resp_status response) = true ->
   res (snd out)
   = mkRes (resp_status response)
       [(lit "Content-Type", lit "text/html; charset=utf-8")]
       (Some (Text modifiedHtml)))
  /\ (valid_status (resp_status response) = false ->
      fst out = Ok tt /\ statusCode (res (snd out)) = 500%Z).
Proof.
  intros Hparts Hget Hh Hf Hct Hd Hne Hm out.
  set (target := origin_root c ++ join (lit "/") rest).
  set (html := (lit "Content-Type", lit "text/html; charset=utf-8")).
  assert (Hout : out
    = if valid_status (resp_status response)
      then (Ok tt,
            mkWorld [(target, fetchOptions req h)]
              (mkRes (resp_status response) [html]
                     (Some (Text modifiedHtml))))
      else handle_catch
             (ERR_HTTP_INVALID_STATUS_CODE (resp_status response))
             (mkWorld [(target, fetchOptions req h)]
                (mkRes (resp_status response) [html] None))).
  { unfold out.
    rewrite (@handle_steps new_URL fetch iconv_decode req first rest c
               Hparts Hget).
    rewrite Hh; cbv zeta; rewrite Hf.
    unfold try_catch, relay, mbind at 1, res_status.
    rewrite rewrite_location_contentType, Hct.
    destruct (rewrite_location_status c response) as [Hs Hb].
    rewrite (@handleHtmlResponse_served iconv_decode _ _ _ text modifiedHtml);
      try assumption; [|rewrite Hb; exact Hd].
    cbn [res statusCode res_headers sent fetched]; rewrite Hs.
    destruct (valid_status (resp_status response)); reflexivity. }
  rewrite Hout.
  destruct (valid_status (resp_status response)).
  - split; [reflexivity | discriminate].
  - split; [discriminate|]; intros _.
    rewrite handle_catch_run; split; reflexivity.
Qed.

Lemma X14_html_answer_witness :
  let response :=
    mkResponse 302 [(lit "content-type", lit "text/html");
                    (lit "location", lit "http://salafitalk.net/st/new.cfm");
                    (lit "set-cookie", lit "id=7")]
      (lit "<a href='new.cfm'>moved</a>") in
  res (snd (run_handle path_URL (origin_serves response) latin1
              (GET "/st/old.cfm")))
  = mkRes 302 [(lit "Content-Type", lit "text/html; charset=utf-8")]
      (Some (Text (lit "<a href=" ++ [DQUOTE] ++ lit "/st/new.cfm" ++ [DQUOTE]
                     ++ lit ">moved</a>"))).
Proof.
  intros response.
  refine (proj1
    (@X14_html_answer path_URL (origin_serves response) latin1
       (GET "/st/old.cfm") (lit "st") [lit "old.cfm"] (Own config_st)
       [(lit "host", Some (lit "salafitalk.net"));
        (lit "referer", Some (lit "http://salafitalk.net/st/"))]
       response (lit "<a href='new.cfm'>moved</a>") _
       eq_refl eq_refl eq_refl eq_refl eq_refl eq_refl _ eq_refl) eq_refl).
  discriminate.
Defined.

Lemma X12_unparsable_referer_witness :
  run_handle rejecting_URL origin_down latin1 (GET_from "/st/page" "http://[")
  = (Ok tt, mkWorld [] (mkRes 500 [] (Some (Text (lit "Invalid URL"))))).
Proof.
  refine (proj1 (proj2
    (@X12_unparsable_referer rejecting_URL origin_down latin1
       (GET_from "/st/page" "http://[") (lit "st") [lit "page"]
       (Own config_st) (lit "http://[") (TypeError "Invalid URL")
       eq_refl eq_refl eq_refl _ eq_refl)) eq_refl).
  discriminate.
Defined.

Lemma handle_unknown_prefix_witness :
  run_handle path_URL origin_down latin1 (GET "/favicon.ico") = (Ok tt, fresh).
Proof.
  apply (@handle_unknown_prefix path_URL origin_down latin1 (GET "/favicon.ico")).
  cbn; split; [reflexivity|].
  unfold Object_prototype; cbn; intuition discriminate.
Defined.

Lemma absolute_rule_witness :
  replace_all absolute_re absolute_fn
    (lit "src='https://sahihmuslim.com/sps/smm/img/a.gif'")
  = Ok (lit "src=" ++ [DQUOTE] ++ lit "/sm/img/a.gif'").
Proof.
  exact (@absolute_rule config_sm (lit "src") [SQUOTE] (lit "https")
           (lit "img/a.gif'")
           (or_intror (or_introl eq_refl)) (or_intror eq_refl)
           (or_intror eq_refl) (or_intror eq_refl)).
Defined.

Lemma rewrite_location_configured_witness :
  rewrite_location (Own config_sm)
    (mkResponse 301
       [(lit "location", lit "https://sahihmuslim.com/sps/smm/book/2")] [])
  = mkResponse 301 [(lit "location", lit "/sm/book/2")] [].
Proof.
  apply (@rewrite_location_configured config_sm 301 (lit "https")
           (lit "book/2") [] []); [cbn; auto | auto | lia].
Defined.

Lemma normalizeReferer_known_witness :
  normalizeReferer path_URL (GET "/st/x") (Some (lit "/sc/forum/topic?id=3"))
    (Own config_st)
  = Ok (lit "http://salafitalk.com//forum/topic?id=3").
Proof.
  apply (@normalizeReferer_known path_URL (GET "/st/x")
           (lit "/sc/forum/topic?id=3")
           (mkURL (lit "/sc/forum/topic") (lit "?id=3"))
           (lit "sc") [lit "forum"; lit "topic"] config_sc (Own config_st));
    [discriminate | reflexivity | reflexivity | cbn; auto].
Defined.

(** ** Redirects that stay as they are *)

Lemma Headers_set_same (h : Headers) (name value : jsstring) :
  Headers_get h name = Some value -> Headers_set h name value = h.
Proof.
  induction h as [|[k v] h IH]; [discriminate|].
  cbn [Headers_get Headers_set]; destruct (str_eqb _ _).
  - intros E; injection E as ->; reflexivity.
  - intros E; rewrite (IH E); reflexivity.
Qed.

Lemma replace_first_anchored (c : member DomainConfig)
    (f : captures -> jsstring) (s : jsstring) (pos : nat) :
  replace_first_go (location_re c) f (S pos) s = s.
Proof.
  revert pos; induction s as [|x s IH]; intros pos;
    cbn [replace_first_go]; unfold exec, location_re; cbn [rseq rmatch].
  - reflexivity.
  - fold (location_re c); rewrite IH; reflexivity.
Qed.

(** X16.  The pattern of the redirect step is anchored at the start of the
    location: a location that does not begin with [http], such as a path,
    leaves the response as it is, whatever the status. *)
Theorem X16_relative_location (c : member DomainConfig)
    (response : FetchResponse) (location : jsstring) :
  Headers_get (resp_headers response) (lit "location") = Some location ->
  startsWith (lit "http") location = false ->
  rewrite_location c response = response.
Proof.
  intros Hl Hh; unfold rewrite_location; rewrite Hl.
  destruct (_ && _); [|reflexivity].
  destruct location as [|x location]; [reflexivity|].
  assert (Hr : replace_first (location_re c)
                 (fun _ => lit "/" ++ interp (field prefix c) ++ lit "/")
                 (x :: location) = x :: location).
  { unfold replace_first; cbn [replace_first_go].
    replace (exec (location_re c) 0 (x :: location)) with (@None (nat * captures)).
    - rewrite replace_first_anchored; reflexivity.
    - unfold exec, location_re; cbn [rseq rmatch]; unfold rtext at 1.
      rewrite rmatch_literal, Hh by reflexivity; reflexivity. }
  rewrite Hr, (Headers_set_same _ _ Hl).
  destruct response; reflexivity.
Qed.

Lemma X16_relative_location_witness :
  rewrite_location (Own config_st) (redirect 302 "/st/login.cfm?next=http://salafitalk.net/st/")
  = redirect 302 "/st/login.cfm?next=http://salafitalk.net/st/".
Proof.
  apply (@X16_relative_location (Own config_st) _
           (lit "/st/login.cfm?next=http://salafitalk.net/st/"));
    reflexivity.
Defined.

(** ** Routes *)

(** X19.  The home page is served for the URL that is exactly one slash,
    whatever the method, without any request to an origin; with a query
    string after the slash the request goes to the proxy handler, which
    finds no prefix and answers nothing. *)
Theorem X19_routing
    (new_URL : jsstring -> jsstring -> Result URL)
    (fetch : jsstring -> RequestInit -> Result FetchResponse)
    (iconv_decode : list N -> option jsstring -> Result jsstring)
    (req : Request) :
  (req_url req = lit "/" ->
   serve new_URL fetch iconv_decode req
   = (Ok tt, mkWorld [] (mkRes 200 [] (Some (Text renderHomePage)))))
  /\ (forall query, req_url req = lit "/?" ++ query ->
       serve new_URL fetch iconv_decode req = (Ok tt, fresh)).
Proof.
  split.
  - intros H; unfold serve, setupRoutes; rewrite H; reflexivity.
  - intros query H; unfold serve, setupRoutes; rewrite H.
    change (str_eqb (lit "/?" ++ query) (lit "/")) with false; cbv iota.
    apply handle_unresolved; rewrite H.
    change (lit "/?" ++ query) with (SLASH :: 63%N :: query).
    cbn [split]; rewrite char_eqb_refl.
    change (char_eqb 63%N SLASH) with false; cbv iota.
    destruct (split SLASH query) as [|x t] eqn:E;
      [exfalso; exact (split_not_nil _ _ E)|].
    cbn [filter truthy]; unfold get; cbn; reflexivity.
Qed.

Lemma X19_routing_witness :
  serve path_URL origin_down latin1
    (mkRequest (lit "/") (lit "POST") [] (lit "x=1"))
  = (Ok tt, mkWorld [] (mkRes 200 [] (Some (Text renderHomePage))))
  /\ serve path_URL origin_down latin1 (GET "/?lang=ar") = (Ok tt, fresh).
Proof.
  split.
  - apply (proj1 (X19_routing path_URL origin_down latin1
                    (mkRequest (lit "/") (lit "POST") [] (lit "x=1"))));
      reflexivity.
  - apply (proj2 (X19_routing path_URL origin_down latin1 (GET "/?lang=ar"))
             (lit "lang=ar")); reflexivity.
Defined.

(** ** Path segments *)

Lemma split_pieces (sep : char) (s : jsstring) :
  Forall (fun piece => ~ In sep piece) (split sep s).
Proof.
  induction s as [|c s IH]; cbn [split].
  - repeat constructor; intros [].
  - destruct (char_eqb c sep) eqn:E.
    + constructor; [intros []|exact IH].
    + destruct (split sep s) as [|x t]; [repeat constructor|].
      * intros [F|[]]; subst; rewrite char_eqb_refl in E; discriminate.
      * inversion IH as [|? ? Hx Ht]; subst; constructor; [|exact Ht].
        intros [F|F]; [subst; rewrite char_eqb_refl in E; discriminate|auto].
Qed.

(** X20.  The segments [handle] and [normalizeReferer] work with are never
    empty and never contain a slash, and they are stable: joining them with
    slashes and splitting the result again gives the same segments, so a
    target path goes through the proxy a second time unchanged. *)
Theorem X20_path_segments (url : jsstring) :
  let pathParts := filter truthy (split SLASH url) in
  Forall segment pathParts
  /\ filter truthy (split SLASH (join (lit "/") pathParts)) = pathParts.
Proof.
  intros pathParts.
  assert (H : Forall segment pathParts).
  { unfold pathParts; apply Forall_forall; intros x Hx.
    apply filter_In in Hx; destruct Hx as [Hx Ht]; split.
    - intros ->; discriminate.
    - pose proof (split_pieces SLASH url) as Hp.
      rewrite Forall_forall in Hp; exact (Hp x Hx). }
  split; [exact H|].
  destruct pathParts as [|x l] eqn:E; [reflexivity|].
  apply parts_join; [exact H | discriminate].
Qed.

Lemma relative_rule_twice_witness :
  replace_tpl relative_re (relative_tpl (Own config_sc)) (lit "href='a.htm'")
  = Ok (lit "href=" ++ [DQUOTE] ++ lit "/sc/a.htm" ++ [DQUOTE])
  /\ replace_tpl relative_re (relative_tpl (Own config_sc))
       (lit "href=" ++ [DQUOTE] ++ lit "/sc/a.htm" ++ [DQUOTE])
     = Ok (lit "href=" ++ [DQUOTE] ++ lit "/sc//sc/a.htm" ++ [DQUOTE]).
Proof.
  assert (Hp : plain (lit "a.htm")) by (repeat constructor).
  destruct (@relative_rule_twice config_sc (lit "href") (lit "a.htm")
              SQUOTE SQUOTE (or_intror (or_intror (or_introl eq_refl)))
              (or_introl eq_refl) eq_refl eq_refl Hp eq_refl eq_refl)
    as (H1 & H2 & _).
  split; [exact H1 | exact H2].
Defined.

(** ** An HTML answer with nothing in it *)

(** X22.  An HTML answer whose body decodes to the empty text is not
    served: whatever the status of the origin, the answer is status 500
    with the text [Failed to decode text] and no header. *)
Theorem X22_empty_page
    (new_URL : jsstring -> jsstring -> Result URL)
    (fetch : jsstring -> RequestInit -> Result FetchResponse)
    (iconv_decode : list N -> option jsstring -> Result jsstring)
    (req : Request) (first : jsstring) (rest : list jsstring)
    (c : member DomainConfig) (h : object (option jsstring))
    (response : FetchResponse) :
  filter truthy (split SLASH (req_url req)) = first :: rest ->
  get DOMAIN_CONFIGS first = Some c ->
  getForwardableHeaders new_URL req c = Ok h ->
  fetch (origin_root c ++ join (lit "/") rest) (fetchOptions req h)
    = Ok response ->
  includes (lit "text/html") (contentType response) = true ->
  iconv_decode (resp_body response)
    (own domainToEncoding (interp (field domain c))) = Ok [] ->
  res (snd (run_handle new_URL fetch iconv_decode req))
  = mkRes 500 [] (Some (Text (lit "Failed to decode text"))).
Proof.
  intros Hparts Hget Hh Hf Hct Hd.
  rewrite (@handle_steps new_URL fetch iconv_decode req first rest c Hparts Hget).
  rewrite Hh; cbv zeta; rewrite Hf.
  unfold try_catch, relay, mbind at 1, res_status.
  rewrite rewrite_location_contentType, Hct.
  destruct (rewrite_location_status c response) as [Hs Hb].
  rewrite handleHtmlResponse_empty by (rewrite Hb; exact Hd).
  reflexivity.
Qed.

Lemma X22_empty_page_witness :
  res (snd (run_handle path_URL (origin_serves (page 404 [])) latin1
              (GET "/sm/missing")))
  = mkRes 500 [] (Some (Text (lit "Failed to decode text"))).
Proof.
  apply (@X22_empty_page path_URL (origin_serves (page 404 [])) latin1
           (GET "/sm/missing") (lit "sm") [lit "missing"] (Own config_sm)
           [(lit "host", Some (lit "sahihmuslim.com"));
            (lit "referer", Some (lit "http://sahihmuslim.com/sps/smm/"))]
           (page 404 []));
    reflexivity.
Defined.

Lemma normalizeReferer_unresolved_witness :
  normalizeReferer path_URL (GET "/sm/x")
    (Some (lit "/search?q=http://sahihmuslim.com/")) (Own config_sm)
  = Ok (lit "http://sahihmuslim.com/sps/smm/").
Proof.
  apply (@normalizeReferer_unresolved path_URL (GET "/sm/x")
           (lit "/search?q=http://sahihmuslim.com/")
           (mkURL (lit "/search") (lit "?q=http://sahihmuslim.com/"))
           (Own config_sm)); reflexivity.
Defined.
